(** * The template-directive interpreter: a shallow embedding

    The development follows the TypeScript sources of the template
    helpers: the placeholder and path functions ([find], [replaceHolders],
    [getData], [getScopeData]), the dispatcher [step], the [case] handler
    [caseBlock], the resolver [extend] and the [each] handler.

    Conventions of the embedding.
    - A JavaScript string is a [string] of bytes; case folding, trimming and
      the line terminators of [.] in a regular expression are the ASCII ones.
    - A JavaScript value is a [Value]; a number is the Number that an
      integer literal denotes, an object is the list of its own enumerable
      properties in enumeration order, and what a value inherits from the
      prototypes of the standard library is the opaque value [VHost].
    - The DOM is a tree of [Node]s; a handler that mutates the tree is a
      function from the child list it is called in to the new child list.
    - A function that can throw returns an [option], [None] being the throw. *)

From stdpp Require Import base strings list option gmap pretty.
From Stdlib Require Import ZArith Lia Ascii.

Local Open Scope string_scope.
Local Open Scope Z_scope.
Local Open Scope list_scope.

(** ** Strings *)

Module Str.

(** [s.startsWith(p)] *)
Fixpoint startsWith (p s : string) : bool :=
  match p, s with
  | EmptyString, _ => true
  | String a p', String b s' => if Ascii.eqb a b then startsWith p' s' else false
  | String _ _, EmptyString => false
  end.

Fixpoint drop (n : nat) (s : string) : string :=
  match n, s with
  | O, _ => s
  | S n', String _ s' => drop n' s'
  | S _, EmptyString => EmptyString
  end.

Fixpoint take (n : nat) (s : string) : string :=
  match n, s with
  | O, _ => EmptyString
  | S n', String c s' => String c (take n' s')
  | S _, EmptyString => EmptyString
  end.

Definition len (s : string) : nat := String.length s.

(** [s.endsWith(p)] *)
Definition endsWith (p s : string) : bool :=
  (len p <=? len s)%nat && String.eqb (drop (len s - len p) s) p.

Definition isEmpty (s : string) : bool :=
  match s with EmptyString => true | _ => false end.

(** [s.replace(/^p/, '')] for a literal [p] *)
Definition stripPrefix (p s : string) : string :=
  if startsWith p s then drop (len p) s else s.

(** [s.replace(/p$/, '')] for a literal [p] *)
Definition stripSuffix (p s : string) : string :=
  if endsWith p s then take (len s - len p) s else s.

(** [s.split(sep)] for a non-empty separator: [cur] is the piece being
    read and [skip] counts the separator characters still to be passed. *)
Fixpoint splitGo (sep : string) (skip : nat) (cur : string) (s : string)
  : list string :=
  match s with
  | EmptyString => [cur]
  | String c s' =>
      match skip with
      | S k => splitGo sep k cur s'
      | O =>
          if startsWith sep s
          then cur :: splitGo sep (len sep - 1) EmptyString s'
          else splitGo sep O (cur +:+ String c EmptyString) s'
      end
  end.

Definition split (sep s : string) : list string := splitGo sep O EmptyString s.

(** [parts.join(sep)] *)
Fixpoint join (sep : string) (parts : list string) : string :=
  match parts with
  | [] => EmptyString
  | [p] => p
  | p :: rest => p +:+ sep +:+ join sep rest
  end.

Definition lowerChar (c : ascii) : ascii :=
  let n := Ascii.nat_of_ascii c in
  if ((65 <=? n) && (n <=? 90))%nat then Ascii.ascii_of_nat (n + 32) else c.

(** [s.toLowerCase()] *)
Fixpoint toLowerCase (s : string) : string :=
  match s with
  | EmptyString => EmptyString
  | String c s' => String (lowerChar c) (toLowerCase s')
  end.

Definition isSpace (c : ascii) : bool :=
  let n := Ascii.nat_of_ascii c in
  ((n =? 32) || ((9 <=? n) && (n <=? 13)))%nat.

Fixpoint trimStart (s : string) : string :=
  match s with
  | String c s' => if isSpace c then trimStart s' else s
  | EmptyString => EmptyString
  end.

Fixpoint trimEnd (s : string) : string :=
  match s with
  | EmptyString => EmptyString
  | String c s' =>
      match trimEnd s' with
      | EmptyString => if isSpace c then EmptyString else String c EmptyString
      | t => String c t
      end
  end.

(** [s.trim()] *)
Definition trim (s : string) : string := trimEnd (trimStart s).

(** A line terminator, which [.] of a regular expression does not match. *)
Definition isLineTerminator (c : ascii) : bool :=
  let n := Ascii.nat_of_ascii c in ((n =? 10) || (n =? 13))%nat.

(** No character of [s] is a line terminator. *)
Fixpoint singleLine (s : string) : bool :=
  match s with
  | EmptyString => true
  | String c s' => negb (isLineTerminator c) && singleLine s'
  end.

End Str.

(** ** JavaScript values

    [VNum n] is the Number that the integer literal [n] denotes.  [VHost]
    is a value of the engine's own library: a built-in function or
    prototype object that a value inherits, and whatever is read from
    one.  The model does not look inside it: a property read on it gives
    [VHost] again, and it prints as a function does. *)

#[local] Set Warnings "-register-all".

Inductive Value : Type :=
  | VUndef
  | VNull
  | VBool (b : bool)
  | VNum (n : Z)
  | VStr (s : string)
  | VArr (items : list Value)
  | VObj (fields : list (string * Value))
  | VHost.

Module Js.

(** The truthiness test of [x ? a : b], [!x] and [x || y]. *)
Definition truthy (v : Value) : bool :=
  match v with
  | VUndef | VNull => false
  | VBool b => b
  | VNum n => negb (n =? 0)
  | VStr s => negb (Str.isEmpty s)
  | VArr _ | VObj _ | VHost => true
  end.

Definition isDigit (c : ascii) : bool :=
  let n := Ascii.nat_of_ascii c in ((48 <=? n) && (n <=? 57))%nat.

Fixpoint digitsValue (acc : nat) (s : string) : option nat :=
  match s with
  | EmptyString => Some acc
  | String c s' =>
      if isDigit c
      then digitsValue (10 * acc + (Ascii.nat_of_ascii c - 48))%nat s'
      else None
  end.

(** A property name that is an array index: decimal digits, no leading
    zero unless the name is ["0"]. *)
Definition parseIndex (k : string) : option nat :=
  match k with
  | EmptyString => None
  | String c rest =>
      if Ascii.eqb c "0"%char
      then (if Str.isEmpty rest then Some O else None)
      else digitsValue O k
  end.

(** The own property [k] of an object, when it has one. *)
Fixpoint lookupOwn (k : string) (fields : list (string * Value)) : option Value :=
  match fields with
  | [] => None
  | (k', v) :: rest => if String.eqb k' k then Some v else lookupOwn k rest
  end.

(** The own properties of a value: the fields of an object, the elements
    and the [length] of an array and of a string. *)
Definition ownProperty (obj : Value) (key : string) : option Value :=
  match obj with
  | VObj fields => lookupOwn key fields
  | VArr items =>
      if String.eqb key "length" then Some (VNum (Z.of_nat (length items)))
      else i ← parseIndex key; items !! i
  | VStr s =>
      if String.eqb key "length" then Some (VNum (Z.of_nat (Str.len s)))
      else i ← parseIndex key; c ← String.get i s; Some (VStr (String c EmptyString))
  | _ => None
  end.

(** The property names of the prototypes of the standard library
    (ECMAScript 2024, with its Annex B).  Every value inherits those of
    [Object.prototype]. *)
Definition objectPrototype : list string :=
  ["constructor"; "hasOwnProperty"; "isPrototypeOf"; "propertyIsEnumerable";
   "toLocaleString"; "toString"; "valueOf"; "__proto__";
   "__defineGetter__"; "__defineSetter__"; "__lookupGetter__"; "__lookupSetter__"].

Definition arrayPrototype : list string :=
  ["at"; "concat"; "copyWithin"; "entries"; "every"; "fill"; "filter"; "find";
   "findIndex"; "findLast"; "findLastIndex"; "flat"; "flatMap"; "forEach";
   "includes"; "indexOf"; "join"; "keys"; "lastIndexOf"; "map"; "pop"; "push";
   "reduce"; "reduceRight"; "reverse"; "shift"; "slice"; "some"; "sort"; "splice";
   "toReversed"; "toSorted"; "toSpliced"; "unshift"; "values"; "with"].

Definition stringPrototype : list string :=
  ["at"; "charAt"; "charCodeAt"; "codePointAt"; "concat"; "endsWith"; "includes";
   "indexOf"; "isWellFormed"; "lastIndexOf"; "localeCompare"; "match"; "matchAll";
   "normalize"; "padEnd"; "padStart"; "repeat"; "replace"; "replaceAll"; "search";
   "slice"; "split"; "startsWith"; "substring"; "toLocaleLowerCase";
   "toLocaleUpperCase"; "toLowerCase"; "toUpperCase"; "toWellFormed"; "trim";
   "trimEnd"; "trimStart"; "substr"; "anchor"; "big"; "blink"; "bold"; "fixed";
   "fontcolor"; "fontsize"; "italics"; "link"; "small"; "strike"; "sub"; "sup";
   "trimLeft"; "trimRight"].

Definition numberPrototype : list string :=
  ["toExponential"; "toFixed"; "toPrecision"].

(** [key] names a property that [obj] inherits from its prototype chain. *)
Definition inherited (obj : Value) (key : string) : bool :=
  existsb (String.eqb key)
    (match obj with
     | VArr _ => arrayPrototype
     | VStr _ => stringPrototype
     | VNum _ => numberPrototype
     | _ => []
     end ++ objectPrototype).

(** [obj[key]] on a value other than [undefined] and [null]: an own
    property, else what the prototype chain gives, else [undefined]. *)
Definition getProp (obj : Value) (key : string) : Value :=
  match obj with
  | VHost => VHost
  | _ =>
      match ownProperty obj key with
      | Some v => v
      | None => if inherited obj key then VHost else VUndef
      end
  end.

(** [obj[key]] in general: reading a property of [undefined] or [null]
    throws a TypeError. *)
Definition getPropStrict (obj : Value) (key : string) : option Value :=
  match obj with
  | VUndef | VNull => None
  | _ => Some (getProp obj key)
  end.

(** *** Numbers as texts *)

(** The Number nearest to the integer [n], for [0 <= n]: 53 bits of
    precision, a tie going to the even significand; [None] is
    [Infinity]. *)
Definition nearestNumber (n : Z) : option Z :=
  let e := Z.log2 n in
  if e <=? 52 then Some n
  else
    let q := 2 ^ (e - 52) in
    let m := n / q in
    let r := n mod q in
    let m' :=
      if 2 * r <? q then m
      else if q <? 2 * r then m + 1
      else if Z.even m then m else m + 1 in
    if m' * q <? 2 ^ 1024 then Some (m' * q) else None.

(** The number of decimal digits of [0 < x]. *)
Definition digits (x : Z) : Z := Z.of_nat (Str.len (pretty x)).

(** The candidates of [Number::toString] with [k] digits: the [(s, n)]
    with [10^(k-1) <= s < 10^k] such that [s * 10^(n-k)] denotes [x]. *)
Definition candidates (x k : Z) : list (Z * Z) :=
  List.filter
    (fun sn =>
       let '(s, n) := sn in
       (0 <=? n - k) && (10 ^ (k - 1) <=? s) && (s <? 10 ^ k) &&
       match nearestNumber (s * 10 ^ (n - k)) with
       | Some y => y =? x
       | None => false
       end)
    (flat_map (fun n => let s := x / 10 ^ (n - k) in [(s, n); (s + 1, n)])
              [digits x; digits x + 1]).

(** Of two candidates the one whose value is closer to [x], and the even
    [s] when they are as close. *)
Definition closer (x k : Z) (a b : Z * Z) : Z * Z :=
  let dist sn := Z.abs (fst sn * 10 ^ (snd sn - k) - x) in
  if dist a <? dist b then a
  else if dist b <? dist a then b
  else if Z.even (fst a) then a else b.

(** The least [k] that has a candidate, with the closest one. *)
Fixpoint shortest (x : Z) (fuel : nat) (k : Z) : option (Z * Z * Z) :=
  match fuel with
  | O => None
  | S fuel' =>
      match candidates x k with
      | c :: rest =>
          let '(s, n) := fold_left (closer x k) rest c in Some (s, n, k)
      | [] => shortest x fuel' (k + 1)
      end
  end.

Fixpoint zeros (n : nat) : string :=
  match n with
  | O => EmptyString
  | S n' => String "0" (zeros n')
  end.

(** [Number::toString] for the Number [0 <= x] that is an integer: an
    integer up to [2^53] is written digit by digit; above, the shortest
    digit string that denotes [x] is written, followed by zeros up to 21
    digits and with an exponent beyond. *)
Definition numberDigits (x : Z) : string :=
  if x <=? 2 ^ 53 then pretty x
  else
    match shortest x 17 1 with
    | Some (s, n, k) =>
        if n <=? 21 then pretty s +:+ zeros (Z.to_nat (n - k))
        else
          match pretty s with
          | String d rest =>
              String d (if Str.isEmpty rest then EmptyString else "." +:+ rest)
              +:+ "e+" +:+ pretty (n - 1)
          | EmptyString => EmptyString
          end
    | None => pretty x
    end.

(** [String(n)] and [n.toString()] of a number. *)
Definition numberText (n : Z) : string :=
  (if n <? 0 then "-" else "") +:+
  match nearestNumber (Z.abs n) with
  | Some x => numberDigits x
  | None => "Infinity"
  end.

(** [JSON.stringify(n)] of a number: [Infinity] is written [null]. *)
Definition numberJson (n : Z) : string :=
  match nearestNumber (Z.abs n) with
  | Some _ => numberText n
  | None => "null"
  end.

Definition hexDigit (n : nat) : ascii :=
  Ascii.ascii_of_nat (if (n <? 10)%nat then 48 + n else 87 + n)%nat.

Definition quoteChar (c : ascii) : string :=
  let n := Ascii.nat_of_ascii c in
  if (n =? 34)%nat then "\" +:+ String c EmptyString
  else if (n =? 92)%nat then "\\"
  else if (n =? 8)%nat then "\b"
  else if (n =? 9)%nat then "\t"
  else if (n =? 10)%nat then "\n"
  else if (n =? 12)%nat then "\f"
  else if (n =? 13)%nat then "\r"
  else if (n <? 32)%nat
       then "\u00" +:+ String (hexDigit (n / 16)) (String (hexDigit (n mod 16)) EmptyString)
  else String c EmptyString.

Fixpoint quoteBody (s : string) : string :=
  match s with
  | EmptyString => EmptyString
  | String c s' => quoteChar c +:+ quoteBody s'
  end.

Definition dquote : string := String (Ascii.ascii_of_nat 34) EmptyString.

(** The JSON text of a string. *)
Definition quote (s : string) : string := dquote +:+ quoteBody s +:+ dquote.

(** [JSON.stringify(v)]; [None] is the result [undefined]. *)
Fixpoint stringify (v : Value) : option string :=
  match v with
  | VUndef | VHost => None
  | VNull => Some "null"
  | VBool b => Some (if b then "true" else "false")
  | VNum n => Some (numberJson n)
  | VStr s => Some (quote s)
  | VArr items =>
      Some ("[" +:+ Str.join "," (map (fun x => default "null" (stringify x)) items) +:+ "]")
  | VObj fields =>
      Some ("{" +:+
            Str.join ","
              (omap (fun kv => (fun t => quote (fst kv) +:+ ":" +:+ t) <$> stringify (snd kv))
                    fields) +:+ "}")
  end.

(** [String(v)], the coercion applied to what a [replace] callback
    returns; the text of a built-in function is the engine's. *)
Fixpoint toString (v : Value) : string :=
  match v with
  | VUndef => "undefined"
  | VNull => "null"
  | VBool b => if b then "true" else "false"
  | VNum n => numberText n
  | VStr s => s
  | VArr items =>
      Str.join ","
        (map (fun x => match x with VUndef | VNull => EmptyString | _ => toString x end) items)
  | VObj _ => "[object Object]"
  | VHost => "function () { [native code] }"
  end.

End Js.

(** An optional argument or a [Nullable<T>]: absent, [null], or a value. *)
Inductive Nullable (A : Type) : Type :=
  | JsUndefined
  | JsNull
  | Just (a : A).

Arguments JsUndefined {A}.
Arguments JsNull {A}.
Arguments Just {A} a.

(** ** Regular expressions of the helpers

    A matcher gives, for a string, the length of the match that starts at
    its first character, if there is one. *)

Module Re.

(** The largest [k] such that the first [k] characters hold no line
    terminator and are followed by ["}}"]: where a greedy [.*] stops. *)
Fixpoint greedyClose (s : string) : option nat :=
  match s with
  | EmptyString => None
  | String c s' =>
      if Str.isLineTerminator c then None
      else match greedyClose s' with
           | Some k => Some (S k)
           | None => if Str.startsWith "}}" s then Some O else None
           end
  end.

(** The smallest such [k]: where a lazy [.*?] stops. *)
Fixpoint lazyClose (s : string) : option nat :=
  match s with
  | EmptyString => None
  | String c s' =>
      if Str.startsWith "}}" s then Some O
      else if Str.isLineTerminator c then None
      else S <$> lazyClose s'
  end.

(** [open] followed by one or more characters of a line and ["}}"]; the
    result is the number of characters between [open] and ["}}"]. *)
Definition holderBody (close : string -> option nat) (open s : string) : option nat :=
  if Str.startsWith open s then
    match Str.drop (Str.len open) s with
    | EmptyString => None
    | String c rest =>
        if Str.isLineTerminator c then None else S <$> close rest
    end
  else None.

(** [text.replace(re, cb)] for a global [re] whose matches are not empty:
    [matchAt] is the matcher of [re]; [cb] receives the matched text. *)
Fixpoint replaceGo (matchAt : string -> option nat) (cb : string -> string)
    (skip : nat) (s : string) : string :=
  match s with
  | EmptyString => EmptyString
  | String c s' =>
      match skip with
      | S k => replaceGo matchAt cb k s'
      | O =>
          match matchAt s with
          | Some n => cb (Str.take n s) +:+ replaceGo matchAt cb (n - 1) s'
          | None => String c (replaceGo matchAt cb O s')
          end
      end
  end.

Definition replaceAll (matchAt : string -> option nat) (cb : string -> string)
    (s : string) : string :=
  replaceGo matchAt cb O s.

End Re.

(** ** Paths, placeholders and scopes *)

Record Scope : Type := mkScope { reference : string; data : Value }.

(** [scopes] is in push order: a scope pushed later is further right.  An
    absent stack behaves as the empty one in every function below. *)
Record TemplateData : Type :=
  mkTemplateData { originalData : Value; scopes : list Scope }.

Inductive Key : Type :=
  | KStr (s : string)
  | KNum (n : Z).

Module Tpl.

(** [find(query, data)] *)
Definition find (query : string) (data : Value) : Value :=
  fold_left (fun obj val => if Js.truthy obj then Js.getProp obj val else obj)
            (Str.split "." query) data.

(** The matcher of [/\{\{\$.+\}\}/]: the length of the match. *)
Definition holderGreedy (s : string) : option nat :=
  (fun n => (3 + n + 2)%nat) <$> Re.holderBody Re.greedyClose "{{$" s.

(** [i.replace(/^\{\{\$|\}\}$/g, '')] *)
Definition stripHolder (i : string) : string :=
  Str.stripSuffix "}}" (Str.stripPrefix "{{$" i).

(** [replaceHolders(text, data)]; a callback result [undefined] is
    inserted as the text ["undefined"]. *)
Definition replaceHolders (text : string) (data : Value) : string :=
  Re.replaceAll holderGreedy
    (fun i => default "undefined" (Js.stringify (find (stripHolder i) data)))
    text.

(** [(scopes.find(i => i.reference == name) || { data: {} }).data], guarded
    by the test that the stack is not empty. *)
Definition scopeDataOf (name : string) (scopes : list Scope) : Value :=
  match scopes with
  | [] => VObj []
  | _ =>
      match List.find (fun i => String.eqb (reference i) name) scopes with
      | Some i => data i
      | None => VObj []
      end
  end.

(** [getData(text, data, scope)] *)
Definition getData (text : string) (data : TemplateData) (scope : Nullable string)
  : Value :=
  let dataToSearch :=
    match scope with
    | Just scope => scopeDataOf scope (scopes data)
    | _ => originalData data
    end in
  find (Str.stripPrefix "$" text) dataToSearch.

(** [key || fallback] followed by [.toString()] *)
Definition keyOr (key : Nullable Key) (fallback : string) : string :=
  match key with
  | Just (KStr s) => if Str.isEmpty s then fallback else s
  | Just (KNum n) => if n =? 0 then fallback else Js.numberText n
  | _ => fallback
  end.

(** The text of [scope] inside a template literal. *)
Definition scopeText (scope : Nullable string) : string :=
  match scope with
  | JsUndefined => "undefined"
  | JsNull => "null"
  | Just s => s
  end.

Section ScopeData.

(** [subject.replace(new RegExp(source), replacement)] of the JavaScript
    engine; [None] when [source] is not a pattern. *)
Variable regExpReplace : forall (source subject replacement : string), option string.

(** [getScopeData(search, data, scope, key)] *)
Definition getScopeData (search : string) (data : TemplateData)
    (scope : Nullable string) (key : Nullable Key) : option Value :=
  let noScope :=
    match scope with Just s => Str.isEmpty s | _ => true end in
  if (length (Str.split "." search) =? 1)%nat && noScope
  then Js.getPropStrict (originalData data) (Str.stripPrefix "$" search)
  else
    let dataToSearch :=
      match scope with
      | Just s =>
          if Str.isEmpty s then originalData data
          else scopeDataOf (Str.stripPrefix "$" s) (scopes data)
      | _ => originalData data
      end in
    query ← regExpReplace ("^\$" +:+ scopeText scope) search
                          (keyOr key (Str.stripPrefix "$" search));
    Some (find query dataToSearch).

End ScopeData.

(** The engine's [replace] for a pattern [^\$name] whose [name] is made of
    word characters, and a replacement without [$]: the literal prefix
    ["$name"] is replaced. *)
Definition replaceDollarPrefix (source subject replacement : string) : option string :=
  let lit := Str.drop 2 source in
  Some (if Str.startsWith lit subject
        then replacement +:+ Str.drop (Str.len lit) subject
        else subject).

(** As the specification words the search of the stack: last pushed
    first.  It is stated for comparison with [scopeDataOf]. *)
Definition lastPushedDataOf (name : string) (scopes : list Scope) : Value :=
  match List.find (fun i => String.eqb (reference i) name) (rev scopes) with
  | Some i => data i
  | None => VObj []
  end.

End Tpl.

(** ** The document tree *)

Inductive Node : Type :=
  | Text (content : string)
  | Comment (content : string)
  | Elem (name : string) (attrs : list (string * string)) (children : list Node).

Module Dom.

(** [node.nodeName.toLowerCase()] of an element *)
Definition tagOf (n : Node) : option string :=
  match n with
  | Elem name _ _ => Some (Str.toLowerCase name)
  | _ => None
  end.

Definition hasTag (t : string) (n : Node) : bool :=
  match tagOf n with
  | Some t' => String.eqb t' t
  | None => false
  end.

Definition childNodes (n : Node) : list Node :=
  match n with
  | Elem _ _ children => children
  | _ => []
  end.

Fixpoint lookupAttr (k : string) (attrs : list (string * string)) : option string :=
  match attrs with
  | [] => None
  | (k', v) :: rest => if String.eqb k' k then Some v else lookupAttr k rest
  end.

(** [element.getAttribute(k)], [None] being [null] *)
Definition getAttribute (k : string) (n : Node) : option string :=
  match n with
  | Elem _ attrs _ => lookupAttr k attrs
  | _ => None
  end.

(** [element.getAttribute(k) || fallback] *)
Definition getAttributeOr (k fallback : string) (n : Node) : string :=
  match getAttribute k n with
  | Some v => if Str.isEmpty v then fallback else v
  | None => fallback
  end.

(** The descendants of a node in document order. *)
Fixpoint descendants (n : Node) : list Node :=
  match n with
  | Elem _ _ children => flat_map (fun c => c :: descendants c) children
  | _ => []
  end.

(** [element.querySelectorAll(sel)] for a list of type selectors *)
Definition querySelectorAll (tags : list string) (n : Node) : list Node :=
  List.filter (fun d => existsb (fun t => hasTag t d) tags) (descendants n).

(** The number of nodes of a tree and of a child list. *)
Fixpoint size (n : Node) : nat :=
  match n with
  | Elem _ _ children => S (list_sum (map size children))
  | _ => 1%nat
  end.

Definition sizeAll (l : list Node) : nat := list_sum (map size l).

End Dom.

(** ** The dispatcher and the [case] handler *)

Module Dispatch.

(** What a walk or a handler yields: the template data and the new child
    list of the node it ran in; [None] when it throws or does not return. *)
Definition Outcome : Type := option (TemplateData * list Node).

Definition Walker : Type := TemplateData -> list Node -> Outcome.

(** A handler is called on [element], found between the siblings [before]
    and [after]. *)
Definition Handler : Type :=
  TemplateData -> forall (before : list Node) (element : Node) (after : list Node), Outcome.

(** The template data as the object the handlers pass around. *)
Definition dataObject (d : TemplateData) : Value :=
  VObj [("originalData", originalData d);
        ("scopes",
         VArr (map (fun sc => VObj [("reference", VStr (reference sc)); ("data", data sc)])
                   (scopes d)))].

(** The loop of [caseBlock] over the [when] and [default] nodes: the
    children cloned into the fragment when the loop is left by [break],
    [None] when it runs to its end. *)
Fixpoint caseLoop (value : string) (d : TemplateData) (nodes : list Node)
  : option (list Node) :=
  match nodes with
  | [] => None
  | node :: rest =>
      if Dom.hasTag "default" node then Some (Dom.childNodes node)
      else
        let condition := Dom.getAttributeOr ":" "false" node in
        let result := String.eqb (Tpl.replaceHolders condition (dataObject d)) value in
        if negb result then caseLoop value d rest
        else Some (Dom.childNodes node)
  end.

(** [caseBlock(root, element, data, mixins)].  The guard on
    [element.ownerDocument] never fires for an element of a document.
    [stepf] is the walk of the fragment: the handler starts it without
    awaiting it, so [stepf] stands for what the walk has done to the
    fragment when the fragment takes the place of the element.  The
    removal of the [when] and [default] nodes and of the element acts on
    the element, which is then out of the tree. *)
Definition caseBlock (stepf : Walker) : Handler :=
  fun d before element after =>
    let nodes := Dom.querySelectorAll ["when"; "default"] element in
    let value := Tpl.replaceHolders (Dom.getAttributeOr ":" "false" element) (dataObject d) in
    match caseLoop value d nodes with
    | Some frag =>
        '(d', frag') ← stepf d frag;
        Some (d', before ++ frag' ++ after)
    | None => Some (d, before ++ after)
    end.

(** The baseline of a [case] element and, in the words of the
    specification, the test of a branch against it: a [when] matches when
    its own attribute, substituted the same way, equals the baseline; a
    [default] always matches. *)
Definition baselineOf (d : TemplateData) (element : Node) : string :=
  Tpl.replaceHolders (Dom.getAttributeOr ":" "false" element) (dataObject d).

Definition branchMatches (d : TemplateData) (baseline : string) (node : Node) : bool :=
  Dom.hasTag "default" node || String.eqb (baselineOf d node) baseline.

(** The outcome of splicing the walked children of [branch] in the place
    of the element. *)
Definition spliceBranch (stepf : Walker) (d : TemplateData)
    (before : list Node) (branch : Node) (after : list Node) : Outcome :=
  '(d', frag) ← stepf d (Dom.childNodes branch);
  Some (d', before ++ frag ++ after).

(** [remove(child)] *)
Definition remove : Handler :=
  fun d before element after => Some (d, before ++ after).

(** The handlers of the other directive modules. *)
Record Handlers : Type := mkHandlers {
  includeBlock : Handler;
  requireBlock : Handler;
  block : Handler;
  includeMixin : Handler;
  ifBlock : Handler;
  eachBlock : Handler;
  forBlock : Handler;
  debugBlock : Handler
}.

(** The arms of the [switch] of [step]. *)
Inductive Route : Type :=
  | ToIncludeBlock
  | ToRequireBlock
  | ToBlock
  | ToIncludeMixin
  | ToIfBlock
  | ToCaseBlock
  | ToEachBlock
  | ToForBlock
  | ToDebugBlock
  | ToRemove.

(** The [switch (name)] of [step]: the labels are compared in the order
    they are written and the first equal one is taken. *)
Definition route (name : string) : option Route :=
  if String.eqb name "include" then Some ToIncludeBlock
  else if String.eqb name "require" then Some ToRequireBlock
  else if String.eqb name "block" then Some ToBlock
  else if String.eqb name "include" then Some ToIncludeMixin
  else if String.eqb name "if" then Some ToIfBlock
  else if String.eqb name "case" then Some ToCaseBlock
  else if String.eqb name "each" then Some ToEachBlock
  else if String.eqb name "for" then Some ToForBlock
  else if String.eqb name "debug" then Some ToDebugBlock
  else if String.eqb name "elif" then Some ToRemove
  else if String.eqb name "else" then Some ToRemove
  else None.

(** The handler called by an arm.  The walk handed to [caseBlock] is the
    whole walk of the fragment; the scan that starts again after the
    handler visits the same nodes once more. *)
Definition handlerOf (h : Handlers) (stepf : Walker) (r : Route) : Handler :=
  match r with
  | ToIncludeBlock => includeBlock h
  | ToRequireBlock => requireBlock h
  | ToBlock => block h
  | ToIncludeMixin => includeMixin h
  | ToIfBlock => ifBlock h
  | ToCaseBlock => caseBlock stepf
  | ToEachBlock => eachBlock h
  | ToForBlock => forBlock h
  | ToDebugBlock => debugBlock h
  | ToRemove => remove
  end.

(** The [for] loop of [step] over [node.childNodes]: [before] are the
    children already passed, [rest] those still to visit; [stepf] is
    [step] itself, for the restart after a handler and for the descent
    into a plain element. *)
Fixpoint scan (h : Handlers) (stepf : Walker) (d : TemplateData)
    (before rest : list Node) : Outcome :=
  match rest with
  | [] => Some (d, before)
  | child :: after =>
      match child with
      | Elem name attrs children =>
          match route (Str.toLowerCase name) with
          | Some r =>
              '(d', nodes') ← handlerOf h stepf r d before child after;
              stepf d' nodes'
          | None =>
              match children with
              | [] => scan h stepf d (before ++ [child]) after
              | _ =>
                  '(d', children') ← stepf d children;
                  scan h stepf d' (before ++ [Elem name attrs children']) after
              end
          end
      | _ => scan h stepf d (before ++ [child]) after
      end
  end.

(** [step(root, node, data, mixins)] on the children of [node]; [fuel]
    bounds the depth of the calls. *)
Fixpoint step (h : Handlers) (fuel : nat) (d : TemplateData) (nodes : list Node)
  : Outcome :=
  match fuel with
  | O => None
  | S fuel' => scan h (step h fuel') d [] nodes
  end.

(** The same handlers with another handler for mixin invocations. *)
Definition withIncludeMixin (m : Handler) (h : Handlers) : Handlers :=
  mkHandlers (includeBlock h) (requireBlock h) (block h) m
             (ifBlock h) (eachBlock h) (forBlock h) (debugBlock h).

(** A handler that always returns and leaves fewer nodes than it found. *)
Definition shrinks (hd : Handler) : Prop :=
  forall d before element after,
    exists d' out,
      hd d before element after = Some (d', out) /\
      (Dom.sizeAll out < Dom.sizeAll (before ++ element :: after))%nat.

Definition allShrink (h : Handlers) : Prop :=
  shrinks (includeBlock h) /\ shrinks (requireBlock h) /\ shrinks (block h) /\
  shrinks (includeMixin h) /\ shrinks (ifBlock h) /\ shrinks (eachBlock h) /\
  shrinks (forBlock h) /\ shrinks (debugBlock h).

(** Handlers that only take their element out of the tree. *)
Definition removers : Handlers :=
  mkHandlers remove remove remove remove remove remove remove remove.

(** Handlers that leave a text naming the handler that ran. *)
Definition mark (label : string) : Handler :=
  fun d before element after => Some (d, before ++ Text label :: after).

Definition markers : Handlers :=
  mkHandlers (mark "includeBlock") (mark "requireBlock") (mark "block")
             (mark "includeMixin") (mark "ifBlock") (mark "eachBlock")
             (mark "forBlock") (mark "debugBlock").

(** As the specification words the substitution of a text node: every
    placeholder [{{$path}}] is rewritten with the string-coerced lookup of
    its path in the data.  It is stated for comparison with what [step]
    does to a text node. *)
Definition specText (d : TemplateData) (text : string) : string :=
  Re.replaceAll
    (fun s => (fun n => (3 + n + 2)%nat) <$> Re.holderBody Re.lazyClose "{{$" s)
    (fun full => Js.toString (Tpl.getData (Tpl.stripHolder full) d JsUndefined))
    text.

(** The names of the elements that the [switch] of [step] handles. *)
Definition routedTags : list string :=
  ["include"; "require"; "block"; "if"; "case"; "each"; "for"; "debug"; "elif"; "else"].

(** No element that [step] routes to a handler is left, at any depth. *)
Fixpoint drained (n : Node) : bool :=
  match n with
  | Elem name _ children =>
      match route (Str.toLowerCase name) with
      | Some _ => false
      | None => forallb drained children
      end
  | _ => true
  end.

(** An element with the given tag occurs in the tree. *)
Fixpoint occurs (t : string) (n : Node) : bool :=
  match n with
  | Elem name _ children =>
      String.eqb (Str.toLowerCase name) t || existsb (occurs t) children
  | _ => false
  end.

End Dispatch.

(** ** The resolver of [extends] chains

    A template is its document, given by the root element, its file and
    the template that extends it; the fields [dom] and [body] are views of
    the same document. *)

Inductive Template : Type :=
  mkTemplate (document : Node) (file : string) (child : option Template).

Definition document (t : Template) : Node :=
  match t with mkTemplate d _ _ => d end.

Definition file (t : Template) : string :=
  match t with mkTemplate _ f _ => f end.

Definition child (t : Template) : option Template :=
  match t with mkTemplate _ _ c => c end.

(** What [await parseFile(file)] gives: a template, a falsy value, or a
    rejection. *)
Inductive Loaded : Type :=
  | Parsed (t : Template)
  | NoTemplate
  | LoadFailure.

Module Resolver.

(** [document.querySelector(':scope > extends')]: the first child of the
    root element with the tag. *)
Definition queryScopeChild (t : string) (doc : Node) : option Node :=
  List.find (Dom.hasTag t) (Dom.childNodes doc).

(** [ext.replaceWith(new)] for the first element with tag [t] among the
    nodes [l] and their descendants, in document order; [None] when there
    is no such element. *)
Fixpoint replaceFirst (t : string) (new : Node) (n : Node) : option Node :=
  if Dom.hasTag t n then Some new
  else match n with
       | Elem name attrs children =>
           Elem name attrs <$>
             (fix inList (l : list Node) : option (list Node) :=
                match l with
                | [] => None
                | c :: l' =>
                    match replaceFirst t new c with
                    | Some c' => Some (c' :: l')
                    | None => cons c <$> inList l'
                    end
                end) children
       | _ => None
       end.

(** What [replaceWith] is handed: a node that can be a child, or a
    document, given by its root element. *)
Inductive Replacement : Type :=
  | OfNode (n : Node)
  | OfDocument (root : Node).

Inductive Spliced : Type :=
  | NotReplaced
  | Replaced (doc : Node)
  | Thrown.

(** [let ext = doc.querySelector('extends')] followed, when [ext] has a
    parent element, by [ext.replaceWith(new)].  A root element that is
    itself the first match has no parent element: nothing is replaced.  A
    document cannot be the child of a node: handed a document,
    [replaceWith] throws. *)
Definition spliceExtends (doc : Node) (new : Replacement) : Spliced :=
  if Dom.hasTag "extends" doc then NotReplaced
  else
    match new with
    | OfNode n =>
        match replaceFirst "extends" n doc with
        | Some doc' => Replaced doc'
        | None => NotReplaced
        end
    | OfDocument root =>
        match replaceFirst "extends" root doc with
        | Some _ => Thrown
        | None => NotReplaced
        end
    end.

Section Extend.

(** [path.dirname], [path.resolve] and the loader [parseFile]. *)
Variable dirname : string -> string.
Variable resolve : string -> string -> string.
Variable parseFile : string -> Loaded.

(** [extend(tpl)].  The first component is what the call returns, [None]
    when the loader rejects or [replaceWith] throws; [tpl.document] is a
    [Document].  The call [extend(parent)] inside is not awaited and its
    value is dropped: the second component lists what these dropped calls
    return, as far as [fuel] follows them. *)
Fixpoint extend (fuel : nat) (tpl : Template) : option Template * list Template :=
  match queryScopeChild "extends" (document tpl) with
  | None => (Some tpl, [])
  | Some item =>
      match Dom.getAttribute "file" item with
      | None => (Some tpl, [])
      | Some inclFileName =>
          if Str.isEmpty inclFileName then (Some tpl, [])
          else
            let dir := dirname (file tpl) in
            let target :=
              resolve dir
                (inclFileName +:+
                 (if negb (Str.endsWith ".rtpl" inclFileName) then ".rtpl" else "")) in
            match parseFile target with
            | LoadFailure => (None, [])
            | NoTemplate => (Some tpl, [])
            | Parsed parent =>
                let parent := mkTemplate (document parent) (file parent) (Some tpl) in
                match spliceExtends (document parent) (OfDocument (document tpl)) with
                | Thrown => (None, [])
                | Replaced doc' =>
                    let parent := mkTemplate doc' (file parent) (child parent) in
                    (Some parent,
                     match fuel with
                     | O => []
                     | S fuel' =>
                         match extend fuel' parent with
                         | (Some top, dropped) => top :: dropped
                         | (None, dropped) => dropped
                         end
                     end)
                | NotReplaced => (Some parent, [])
                end
            end
      end
  end.

End Extend.

End Resolver.

(** ** The [each] handler *)

Module Each.

(** The evaluation context: the bindings by name. *)
Abbreviation Context := (gmap string Value).

(** [for (let i in data)] with [data[i]]: the enumerable keys, as strings,
    each with its value. *)
Fixpoint indexed (i : nat) (items : list Value) : list (string * Value) :=
  match items with
  | [] => []
  | v :: rest => (pretty i, v) :: indexed (S i) rest
  end.

Fixpoint chars (s : string) : list Value :=
  match s with
  | EmptyString => []
  | String c s' => VStr (String c EmptyString) :: chars s'
  end.

Definition forIn (data : Value) : list (string * Value) :=
  match data with
  | VArr items => indexed O items
  | VObj fields => fields
  | VStr s => indexed O (chars s)
  | _ => []
  end.

(** [element.nextElementSibling] among the following siblings: the nodes
    passed over, the element, the siblings after it. *)
Fixpoint nextElementSibling (after : list Node)
  : option (list Node * Node * list Node) :=
  match after with
  | [] => None
  | Elem name attrs children :: rest => Some ([], Elem name attrs children, rest)
  | n :: rest =>
      '(skipped, e, rest') ← nextElementSibling rest;
      Some (n :: skipped, e, rest')
  end.

(** [getNext(element)]: the [else] element, when it is the next element
    sibling. *)
Definition elseSibling (after : list Node) : option (list Node * Node * list Node) :=
  match nextElementSibling after with
  | Some (skipped, e, rest) =>
      if Dom.hasTag "else" e then Some (skipped, e, rest) else None
  | None => None
  end.

(** The following siblings once [for (let node of nodes) node.remove()]
    has run. *)
Definition withoutElse (after : list Node) : list Node :=
  match elseSibling after with
  | Some (skipped, _, rest) => skipped ++ rest
  | None => after
  end.

(** The names read from the control attribute: [key] (empty when there is
    none), [value] and the expression of the collection; [None] when the
    handler removes the element because a side of [' in '] is missing. *)
Definition parseQuery (query : string) : option (string * string * string) :=
  match Str.split " in " query with
  | placeholderKeys :: placeholderData :: _ =>
      if Str.isEmpty placeholderKeys || Str.isEmpty placeholderData then None
      else
        let placeholderKeys := Str.trim placeholderKeys in
        if Str.startsWith "[" placeholderKeys && Str.endsWith "]" placeholderKeys
        then
          match map Str.trim
                  (Str.split "," (Str.stripSuffix "]" (Str.stripPrefix "[" placeholderKeys)))
          with
          | key :: value :: _ => Some (key, value, placeholderData)
          | [key] => Some (key, "undefined", placeholderData)
          | [] => Some ("undefined", "undefined", placeholderData)
          end
        else Some ("", placeholderKeys, placeholderData)
  | _ => None
  end.

(** [!data || (Array.isArray(data) && data.length == 0)] *)
Definition isEmptyData (data : Value) : bool :=
  negb (Js.truthy data) ||
  match data with VArr [] => true | _ => false end.

Section Handler.

(** [runInContext(code, context)], [None] when it throws. *)
Variable runInContext : string -> Context -> option Value.
(** [step(context, client, root, clone)]: the context and the clone
    after the walk, [None] when it throws. *)
Variable stepc : Context -> Node -> option (Context * Node).
(** The getter and the setter of [innerHTML]. *)
Variable serialize : list Node -> string.
Variable parse : string -> list Node.

(** The matcher of [/\{\{(.+?)\}\}/]: the length of the match. *)
Definition holderLazy (s : string) : option nat :=
  (fun n => (2 + n + 2)%nat) <$> Re.holderBody Re.lazyClose "{{" s.

(** The group [(.+?)] of a match. *)
Definition inner (full : string) : string :=
  Str.take (Str.len full - 4) (Str.drop 2 full).

(** The callback
    [(full, itm) => { try { return runInContext(itm || '', context) || '' } catch (e) { return full } }]
    with the coercion of its result to a string. *)
Definition fill (context : Context) (full : string) : string :=
  match runInContext (inner full) context with
  | Some v => if Js.truthy v then Js.toString v else EmptyString
  | None => full
  end.

Definition substitute (context : Context) (text : string) : string :=
  Re.replaceAll holderLazy (fill context) text.

(** The clone of a child with its placeholders filled. *)
Definition fillClone (context : Context) (c : Node) : Node :=
  match c with
  | Text content =>
      if Str.isEmpty content then c else Text (substitute context content)
  | Elem name attrs children =>
      Elem name attrs (parse (substitute context (serialize children)))
  | Comment _ => c
  end.

(** The loop over [element.childNodes] of one iteration. *)
Fixpoint eachChild (context : Context) (children : list Node)
  : option (Context * list Node) :=
  match children with
  | [] => Some (context, [])
  | c :: rest =>
      '(context, clone) ← stepc context (fillClone context c);
      '(context, frag) ← eachChild context rest;
      Some (context, clone :: frag)
  end.

(** [context[value] = data[i]; if (key) context[key] = i] *)
Definition bind (key value : string) (entry : string * Value) (context : Context)
  : Context :=
  let context := <[value := entry.2]> context in
  if Str.isEmpty key then context else <[key := VStr entry.1]> context.

(** The context once every entry has been bound in turn. *)
Definition boundAll (key value : string) (entries : list (string * Value))
    (context : Context) : Context :=
  fold_left (fun c e => bind key value e c) entries context.

(** The walks of the clones return and leave the context as it is. *)
Definition walksKeepContext : Prop :=
  forall c n, exists n', stepc c n = Some (c, n').

(** The loop [for (let i in data)]. *)
Fixpoint eachEntry (key value : string) (children : list Node)
    (context : Context) (entries : list (string * Value))
  : option (Context * list Node) :=
  match entries with
  | [] => Some (context, [])
  | entry :: rest =>
      '(context, frag) ← eachChild (bind key value entry context) children;
      '(context, frag') ← eachEntry key value children context rest;
      Some (context, frag ++ frag')
  end.

(** [try { data = runInContext(placeholderData, context) } catch (e) { }]
    on [data = null] *)
Definition collection (placeholderData : string) (context : Context) : Value :=
  match runInContext placeholderData context with
  | Some v => v
  | None => VNull
  end.

(** [each(context, client, root, element)] *)
Definition each (context : Context) (before : list Node) (element : Node)
    (after : list Node) : option (Context * list Node) :=
  let query := Dom.getAttributeOr ":" "" element in
  if Str.isEmpty query
  then Some (context, before ++ [element] ++ withoutElse after)
  else
    match parseQuery query with
    | None => Some (context, before ++ after)
    | Some (key, value, placeholderData) =>
        let data := collection placeholderData context in
        match (if isEmptyData data then elseSibling after else None) with
        | Some (skipped, e, rest) =>
            Some (context, before ++ [element] ++ skipped ++ Dom.childNodes e ++ rest)
        | None =>
            '(context, frag) ←
              eachEntry key value (Dom.childNodes element) context (forIn data);
            Some (context, before ++ frag ++ withoutElse after)
        end
    end.

End Handler.

(** An evaluator that only reads a name: the value bound to it, and a
    throw for an unbound name as for any other text. *)
Definition readName (code : string) (context : Context) : option Value :=
  context !! code.

(** [innerHTML] of an element whose children are text without markup
    characters: the text read, and one text node written. *)
Definition textOf (children : list Node) : string :=
  Str.join "" (map (fun c => match c with Text t => t | _ => EmptyString end) children).

Definition textNode (html : string) : list Node :=
  if Str.isEmpty html then [] else [Text html].

(** A walk that finds no directive and leaves the clone as it is. *)
Definition idle (context : Context) (clone : Node) : option (Context * Node) :=
  Some (context, clone).

End Each.

(** ** The other helpers on placeholders *)

Module Vars.

(** [p] occurs in [s]: some suffix of [s] starts with [p]. *)
Fixpoint occursIn (p s : string) : bool :=
  Str.startsWith p s ||
  match s with
  | EmptyString => false
  | String _ s' => occursIn p s'
  end.

(** The character [c] occurs in [s]. *)
Fixpoint hasChar (c : ascii) (s : string) : bool :=
  match s with
  | EmptyString => false
  | String a s' => Ascii.eqb a c || hasChar c s'
  end.

(** The first segment of the path [q] is no property name of
    [Object.prototype]. *)
Definition plainPath (q : string) : bool :=
  negb (Js.inherited (VObj []) (hd EmptyString (Str.split "." q))).

(** No character of [s] is white space. *)
Fixpoint noSpace (s : string) : bool :=
  match s with
  | EmptyString => true
  | String c s' => negb (Str.isSpace c) && noSpace s'
  end.

(** [text.match(re) || []] for a global [re] whose matches are not empty:
    the matched texts, from left to right. *)
Fixpoint matchesGo (matchAt : string -> option nat) (skip : nat) (s : string)
  : list string :=
  match s with
  | EmptyString => []
  | String c s' =>
      match skip with
      | S k => matchesGo matchAt k s'
      | O =>
          match matchAt s with
          | Some n => Str.take n s :: matchesGo matchAt (n - 1) s'
          | None => matchesGo matchAt O s'
          end
      end
  end.

Definition matchAll (matchAt : string -> option nat) (s : string) : list string :=
  matchesGo matchAt O s.

(** [(text.match(re) || [])[0] || ''] for a [re] without the global flag:
    the first match, or the empty text. *)
Definition firstMatch (matchAt : string -> option nat) (s : string) : string :=
  match matchAll matchAt s with
  | m :: _ => m
  | [] => EmptyString
  end.

(** [[...new Set(items)]]: the items without repetition, each at the place
    where it comes first. *)
Fixpoint dedupe (seen items : list string) : list string :=
  match items with
  | [] => []
  | x :: rest =>
      if existsb (String.eqb x) seen then dedupe seen rest
      else x :: dedupe (x :: seen) rest
  end.

(** The matcher of [/\{\{.+?\}\}/]. *)
Definition holderAny (s : string) : option nat :=
  (fun n => (2 + n + 2)%nat) <$> Re.holderBody Re.lazyClose "{{" s.

(** A character of the class [\w]. *)
Definition isWord (c : ascii) : bool :=
  let n := Ascii.nat_of_ascii c in
  ((48 <=? n) && (n <=? 57) || (65 <=? n) && (n <=? 90) ||
   (97 <=? n) && (n <=? 122) || (n =? 95))%nat.

(** A character of the class [[.\w]]. *)
Definition isPathChar (c : ascii) : bool :=
  isWord c || Ascii.eqb c "."%char.

(** The length of the longest prefix made of characters of [[.\w]]. *)
Fixpoint pathRun (s : string) : nat :=
  match s with
  | String c s' => if isPathChar c then S (pathRun s') else O
  | EmptyString => O
  end.

(** Every character of [s] is of the class [[.\w]]. *)
Fixpoint allPathChars (s : string) : bool :=
  match s with
  | EmptyString => true
  | String c s' => isPathChar c && allPathChars s'
  end.

(** The matcher of [/\$(?!(\d|\.))[.\w]+/]. *)
Definition variableToken (s : string) : option nat :=
  match s with
  | String d (String c rest) =>
      if Ascii.eqb d "$"%char && negb (Js.isDigit c) && negb (Ascii.eqb c "."%char)
         && isPathChar c
      then Some (1 + pathRun (String c rest))%nat
      else None
  | _ => None
  end.

(** The matcher of [/\{\{\$(?!(\d|\.))[.\w]+\}\}/]. *)
Definition variableHolder (s : string) : option nat :=
  if Str.startsWith "{{" s then
    match variableToken (Str.drop 2 s) with
    | Some n =>
        if Str.startsWith "}}" (Str.drop (2 + n) s) then Some (2 + n + 2)%nat else None
    | None => None
    end
  else None.

(** [getVariableValues(string)] *)
Definition getVariableValues (text : string) : list string :=
  let match_ := firstMatch holderAny text in
  dedupe [] (matchAll variableToken match_).

(** [getVariables(string)] *)
Definition getVariables (text : string) : list string :=
  let match_ := firstMatch holderAny text in
  dedupe [] (matchAll variableHolder match_).

(** [getVariableStrings(string)] *)
Definition getVariableStrings (text : string) : list string :=
  let match_ := matchAll holderAny text in
  dedupe [] (map Tpl.stripHolder match_).

(** [dropFirst(text)] *)
Definition dropFirst (text : string) : string :=
  let r := Str.split "." (Str.stripSuffix "}}" (Str.stripPrefix "{{" text)) in
  Str.join "." (tail r).

(** The source of the pattern that [variableMatch(key, braces)] builds. *)
Definition variableMatch (key : string) (braces : bool) : string :=
  if braces
  then "\{\{(\$(?!(\d|\.))\b" +:+ key +:+ "\b[.\w]*)(?![^\<]*\>)\}\}"
  else "(\$(?!(\d|\.))\b" +:+ key +:+ "\b[.\w]*)(?![^\<]*\>)".

Section Info.

(** [subject.replace(new RegExp(source), replacement)] of the JavaScript
    engine, as in [getScopeData], and
    [subject.replace(new RegExp(source, 'g'), replacement)] with a
    replacement that is any value. *)
Variable regExpReplace : forall (source subject replacement : string), option string.
Variable regExpReplaceAll : forall (source subject : string) (replacement : Value), option string.

(** The body of the callback of [getStringInfo] for one key. *)
Definition infoOf (data : TemplateData) (key : string) : option (string * Value) :=
  let breadcrumb := Str.split "." key in
  let scope :=
    if (1 <? length breadcrumb)%nat then Just (hd EmptyString breadcrumb) else JsNull in
  dataObject ← Tpl.getScopeData regExpReplace (Str.join "." breadcrumb) data scope JsUndefined;
  Some (key, dataObject).

(** [getStringInfo(string, data)], [None] when a lookup throws. *)
Definition getStringInfo (text : string) (data : TemplateData)
  : option (list (string * Value)) :=
  mapM (infoOf data) (getVariableStrings text).

(** [replaceVariables(string, data)] *)
Definition replaceVariables (text : string) (data : TemplateData) : option string :=
  infos ← getStringInfo text data;
  foldl (fun acc i =>
           current ← acc;
           regExpReplaceAll (variableMatch i.1 true) current i.2)
        (Some text) infos.

End Info.

End Vars.

(** ** Stray branches *)

Module Orphans.
Import Dispatch.

(** The element is a stray [elif] or [else]. *)
Definition isStray (n : Node) : bool :=
  match n with
  | Elem name _ _ =>
      match route (Str.toLowerCase name) with
      | Some ToRemove => true
      | _ => false
      end
  | _ => false
  end.

(** The only elements of the tree that [step] routes to a handler are
    stray [elif] and [else] elements; what stands below such an element
    is free. *)
Fixpoint onlyStray (n : Node) : bool :=
  match n with
  | Elem name _ children =>
      match route (Str.toLowerCase name) with
      | Some ToRemove => true
      | Some _ => false
      | None => forallb onlyStray children
      end
  | _ => true
  end.

(** The tree without its stray [elif] and [else] elements, at every depth. *)
Fixpoint prune (n : Node) : list Node :=
  match n with
  | Elem name attrs children =>
      match route (Str.toLowerCase name) with
      | Some ToRemove => []
      | _ => [Elem name attrs (flat_map prune children)]
      end
  | _ => [n]
  end.

End Orphans.

(** * Properties *)

(** ** Placeholders of control attributes *)

Module HolderFacts.
Import Tpl.

Lemma greedyClose_spans (body : string) :
  Str.singleLine body = true ->
  Re.greedyClose (body +:+ "}}") = Some (Str.len body).
Proof.
  induction body as [|c body IH]; intros Hline.
  - reflexivity.
  - simpl in Hline. apply andb_prop in Hline as [Hc Hrest].
    change (String c body +:+ "}}") with (String c (body +:+ "}}")).
    cbn [Re.greedyClose]. apply negb_true_iff in Hc. rewrite Hc.
    rewrite (IH Hrest). reflexivity.
Qed.

Lemma replaceGo_skips_all matchAt cb (s : string) (skip : nat) :
  (Str.len s <= skip)%nat -> Re.replaceGo matchAt cb skip s = EmptyString.
Proof.
  revert skip. induction s as [|c s IH]; intros skip Hlen.
  - reflexivity.
  - destruct skip as [|k]; [cbn in Hlen; lia|].
    cbn [Re.replaceGo]. apply IH. cbn in Hlen. unfold Str.len in *. lia.
Qed.

Lemma app_cons (c : ascii) (s t : string) : String c s +:+ t = String c (s +:+ t).
Proof. reflexivity. Qed.

Lemma app_empty_r (s : string) : s +:+ EmptyString = s.
Proof. induction s as [|c s IH]; [reflexivity|]. rewrite app_cons. f_equal. exact IH. Qed.

Lemma take_all (s : string) : Str.take (Str.len s) s = s.
Proof. induction s as [|c s IH]; [reflexivity|]. cbn. f_equal. exact IH. Qed.

Lemma len_app (s t : string) : Str.len (s +:+ t) = (Str.len s + Str.len t)%nat.
Proof.
  unfold Str.len. induction s as [|c s IH]; [reflexivity|].
  rewrite app_cons. cbn. f_equal. exact IH.
Qed.

Lemma drop_app (s t : string) : Str.drop (Str.len s) (s +:+ t) = t.
Proof. induction s as [|c s IH]; [reflexivity|]. rewrite app_cons. exact IH. Qed.

Lemma take_app (s t : string) : Str.take (Str.len s) (s +:+ t) = s.
Proof.
  induction s as [|c s IH]; [reflexivity|].
  rewrite app_cons. cbn. f_equal. exact IH.
Qed.

Lemma endsWith_app (s p : string) : Str.endsWith p (s +:+ p) = true.
Proof.
  unfold Str.endsWith. rewrite len_app.
  replace (Str.len s + Str.len p - Str.len p)%nat with (Str.len s) by lia.
  rewrite drop_app, String.eqb_refl, andb_true_r.
  apply Nat.leb_le. lia.
Qed.

Lemma stripSuffix_app (s p : string) : Str.stripSuffix p (s +:+ p) = s.
Proof.
  unfold Str.stripSuffix. rewrite endsWith_app, len_app.
  replace (Str.len s + Str.len p - Str.len p)%nat with (Str.len s) by lia.
  apply take_app.
Qed.

Lemma replaceGo_at_match matchAt cb (c : ascii) (s : string) (n : nat) :
  matchAt (String c s) = Some n ->
  Re.replaceGo matchAt cb O (String c s) =
  cb (Str.take n (String c s)) +:+ Re.replaceGo matchAt cb (n - 1) s.
Proof. intros Hm. cbn [Re.replaceGo]. rewrite Hm. reflexivity. Qed.

(** A line that opens with the placeholder mark and ends with the closing
    braces is one match of the pattern, whatever stands between: the
    whole of it is looked up as a single path. *)
Lemma replaceHolders_whole_line (c : ascii) (body : string) (data : Value) :
  Str.singleLine (String c body) = true ->
  replaceHolders ("{{$" +:+ String c body +:+ "}}") data =
  default "undefined" (Js.stringify (find (String c body) data)).
Proof.
  intros Hline.
  assert (Hc : Str.isLineTerminator c = false).
  { simpl in Hline. apply andb_prop in Hline as [Hc _]. now apply negb_true_iff in Hc. }
  assert (Hbody : Re.greedyClose (body +:+ "}}") = Some (Str.len body)).
  { apply greedyClose_spans. simpl in Hline. now apply andb_prop in Hline as [_ ?]. }
  unfold replaceHolders, Re.replaceAll.
  change ("{{$" +:+ String c body +:+ "}}")
    with (String "{" (String "{" (String "$" (String c (body +:+ "}}"))))).
  set (tail := String "{" (String "$" (String c (body +:+ "}}")))).
  assert (Hlen : Str.len tail = (5 + Str.len body)%nat).
  { unfold tail.
    change (Str.len (String "{" (String "$" (String c (body +:+ "}}")))))
      with (S (S (S (Str.len (body +:+ "}}"))))).
    rewrite len_app. change (Str.len "}}") with 2%nat. lia. }
  assert (Hm : holderGreedy (String "{" tail) = Some (S (Str.len tail))).
  { rewrite Hlen. unfold tail, holderGreedy, Re.holderBody.
    cbn [Str.startsWith Str.len String.length Str.drop].
    cbn. rewrite Hc, Hbody. cbn. f_equal. lia. }
  rewrite (replaceGo_at_match _ _ _ _ _ Hm).
  rewrite replaceGo_skips_all by lia.
  change (S (Str.len tail)) with (Str.len (String "{" tail)).
  rewrite take_all.
  assert (Hstrip : stripHolder (String "{" tail) = String c body).
  { unfold tail, stripHolder. cbn [Str.stripPrefix Str.startsWith Str.len String.length Str.drop].
    cbn. exact (stripSuffix_app (String c body) "}}"). }
  rewrite Hstrip.
  apply app_empty_r.
Qed.

Definition ab : Value := VObj [("a", VNum 1); ("b", VNum 2)].

(** C8 (the code at the failing input): with two placeholders on a line
    the whole span from the first opening to the last closing braces is
    taken as one placeholder, so [replaceHolders] gives the text
    [undefined] where each placeholder alone resolves to [1] and to [2]
    and the claim asks for [1-2]. *)
Theorem replaceHolders_merges_placeholders :
  replaceHolders "{{$a}}-{{$b}}" ab = "undefined" /\
  replaceHolders "{{$a}}" ab = "1" /\
  replaceHolders "{{$b}}" ab = "2" /\
  replaceHolders "{{$a}}-{{$b}}" ab <> "1-2".
Proof.
  repeat split; try reflexivity. vm_compute. discriminate.
Qed.

End HolderFacts.

(** ** Scoped lookups *)

Module ScopeFacts.
Import Tpl.

Lemma scopeDataOf_first (name : string) (pre : list Scope) (sc : Scope) (post : list Scope) :
  Forall (fun s => reference s <> name) pre ->
  reference sc = name ->
  scopeDataOf name (pre ++ sc :: post) = data sc.
Proof.
  intros Hpre Hsc. unfold scopeDataOf.
  assert (Hfind : List.find (fun i => String.eqb (reference i) name) (pre ++ sc :: post)
                  = Some sc).
  { induction Hpre as [|s pre Hs _ IH]; cbn.
    - rewrite Hsc, String.eqb_refl. reflexivity.
    - apply String.eqb_neq in Hs. rewrite Hs. exact IH. }
  rewrite Hfind. destruct (pre ++ sc :: post) eqn:E; [|reflexivity].
  destruct pre; discriminate.
Qed.

(** Two scopes pushed under the same name, the second one later. *)
Definition shadowed : TemplateData :=
  mkTemplateData (VObj [("v", VNum 0)])
    [mkScope "item" (VObj [("v", VNum 1)]); mkScope "item" (VObj [("v", VNum 2)])].

(** C3 (counterexample): with two scopes named [item] on the stack, the
    lookups read the one pushed first, not the one pushed last. *)
Lemma scope_lookup_not_last_pushed :
  getData "$v" shadowed (Just "item")
    <> find "v" (lastPushedDataOf "item" (scopes shadowed)) /\
  getScopeData replaceDollarPrefix "$item" shadowed (Just "item") (Just (KStr "v"))
    <> Some (find "v" (lastPushedDataOf "item" (scopes shadowed))).
Proof. split; vm_compute; discriminate. Qed.

(** C3 (as amended): a lookup with a scope reference reads the first
    pushed entry of the stack whose [reference] is the requested name (the
    stack is searched in push order), and a lookup without a scope reads
    [originalData]. *)
Theorem scope_lookup_first_pushed (od : Value) (pre : list Scope) (sc : Scope)
    (post : list Scope) (name : string) :
  Forall (fun s => reference s <> name) pre ->
  reference sc = name ->
  let td := mkTemplateData od (pre ++ sc :: post) in
  (forall text, getData text td (Just name) = find (Str.stripPrefix "$" text) (data sc)) /\
  (forall re search scope key,
      Str.isEmpty scope = false ->
      Str.stripPrefix "$" scope = name ->
      getScopeData re search td (Just scope) key =
      (query ← re ("^\$" +:+ scope) search (keyOr key (Str.stripPrefix "$" search));
       Some (find query (data sc)))) /\
  (forall text,
      getData text td JsUndefined = find (Str.stripPrefix "$" text) od /\
      getData text td JsNull = find (Str.stripPrefix "$" text) od) /\
  (forall re search scope key,
      scope = JsUndefined \/ scope = JsNull \/ scope = Just "" ->
      getScopeData re search td scope key =
      if (length (Str.split "." search) =? 1)%nat
      then Js.getPropStrict od (Str.stripPrefix "$" search)
      else (query ← re ("^\$" +:+ scopeText scope) search
                       (keyOr key (Str.stripPrefix "$" search));
            Some (find query od))).
Proof.
  intros Hpre Hsc td. repeat split.
  - intros text. unfold getData. cbn [scopes td].
    now rewrite (scopeDataOf_first name pre sc post Hpre Hsc).
  - intros re search scope key Hne Hname. unfold getScopeData.
    rewrite Hne, andb_false_r. cbn [scopes td scopeText].
    rewrite Hname. now rewrite (scopeDataOf_first name pre sc post Hpre Hsc).
  - intros re search scope key [-> | [-> | ->]]; unfold getScopeData; cbn;
      destruct (length (Str.split "." search) =? 1)%nat; reflexivity.
Qed.

Lemma scope_lookup_first_pushed_witness :
  getData "$v" shadowed (Just "item") = VNum 1 /\
  getScopeData replaceDollarPrefix "$item" shadowed (Just "item") (Just (KStr "v"))
    = Some (VNum 1) /\
  getData "$v" shadowed JsUndefined = VNum 0.
Proof.
  destruct (scope_lookup_first_pushed (VObj [("v", VNum 0)]) []
              (mkScope "item" (VObj [("v", VNum 1)]))
              [mkScope "item" (VObj [("v", VNum 2)])] "item")
    as (Hdata & Hscope & Hplain & _).
  - constructor.
  - reflexivity.
  - split; [|split].
    + exact (Hdata "$v").
    + exact (Hscope replaceDollarPrefix "$item" "item" (Just (KStr "v"))
               eq_refl eq_refl).
    + exact (proj1 (Hplain "$v")).
Defined.

End ScopeFacts.

(** ** The [case] handler *)

Module CaseFacts.
Import Dispatch.

Lemma caseLoop_find (d : TemplateData) (value : string) (nodes : list Node) :
  caseLoop value d nodes = Dom.childNodes <$> List.find (branchMatches d value) nodes.
Proof.
  induction nodes as [|node rest IH]; [reflexivity|].
  cbn [caseLoop List.find]. unfold branchMatches at 1.
  destruct (Dom.hasTag "default" node); [reflexivity|].
  cbn [orb]. unfold baselineOf.
  destruct (String.eqb _ value); cbn [negb]; [reflexivity|exact IH].
Qed.

Lemma caseBlock_find (stepf : Walker) (d : TemplateData)
    (before : list Node) (element : Node) (after : list Node) :
  caseBlock stepf d before element after =
  match List.find (branchMatches d (baselineOf d element))
          (Dom.querySelectorAll ["when"; "default"] element)
  with
  | Some branch => spliceBranch stepf d before branch after
  | None => Some (d, before ++ after)
  end.
Proof.
  unfold caseBlock, spliceBranch. rewrite caseLoop_find.
  fold (baselineOf d element). destruct (List.find _ _); reflexivity.
Qed.

Lemma querySelectorAll_when_default (element : Node) :
  Dom.querySelectorAll ["when"; "default"] element
  = List.filter (fun n => Dom.hasTag "when" n || Dom.hasTag "default" n)
                (Dom.descendants element).
Proof.
  unfold Dom.querySelectorAll. apply List.filter_ext.
  intros n. cbn. now rewrite orb_false_r.
Qed.

(** C7: the baseline is computed once from the attribute of the [case]
    element; the [when] and [default] descendants are taken in document
    order; the children of the first branch that matches (a [when] whose
    substituted attribute equals the baseline, or a [default]) are walked
    and take the place of the [case] element between its siblings; when no
    branch matches the element is removed and nothing is put in its place,
    and the handler still returns. *)
Theorem caseBlock_first_matching_branch (stepf : Walker) (d : TemplateData)
    (before : list Node) (element : Node) (after : list Node) :
  caseBlock stepf d before element after =
  match List.find (branchMatches d (baselineOf d element))
          (List.filter (fun n => Dom.hasTag "when" n || Dom.hasTag "default" n)
                       (Dom.descendants element))
  with
  | Some branch => spliceBranch stepf d before branch after
  | None => Some (d, before ++ after)
  end.
Proof.
  rewrite caseBlock_find. now rewrite querySelectorAll_when_default.
Qed.

Lemma find_first {A : Type} (f : A -> bool) (pre : list A) (x : A) (post : list A) :
  Forall (fun a => f a = false) pre -> f x = true ->
  List.find f (pre ++ x :: post) = Some x.
Proof.
  intros Hpre Hx. induction Hpre as [|a pre Ha _ IH]; cbn.
  - now rewrite Hx.
  - now rewrite Ha.
Qed.

(** The example of the specification: [case] on 2 with the branches
    [when] 1, [when] 2 and [default] renders the second branch only. *)
Definition caseOnTwo : Node :=
  Elem "case" [(":", "2")]
    [Elem "when" [(":", "1")] [Text "one"];
     Elem "when" [(":", "2")] [Text "two"];
     Elem "default" [] [Text "other"]].

Definition noData : TemplateData := mkTemplateData (VObj []) [].

Definition idleWalker : Walker := fun d nodes => Some (d, nodes).

Example caseBlock_on_two :
  caseBlock idleWalker noData [Text "<"] caseOnTwo [Text ">"]
  = Some (noData, [Text "<"; Text "two"; Text ">"]).
Proof. reflexivity. Qed.


(** The same example through the dispatcher. *)
Example step_case_on_two :
  step removers 3 noData [Text "<"; caseOnTwo; Text ">"]
  = Some (noData, [Text "<"; Text "two"; Text ">"]).
Proof. reflexivity. Qed.

(** A [case] and a [when] that both lack the attribute. *)
Definition bareCase : Node :=
  Elem "case" []
    [Elem "when" [(":", "1")] [Text "one"];
     Elem "when" [] [Text "bare"];
     Elem "default" [] [Text "other"]].


(** A [case] without the attribute whose [default] stands before a [when]
    without the attribute. *)
Definition defaultBeforeWhen : Node :=
  Elem "case" []
    [Elem "default" [] [Text "other"];
     Elem "when" [] [Text "bare"]].


End CaseFacts.

(** ** The dispatcher *)

Module StepFacts.
Import Dispatch.

(** Induction on a tree, with the hypothesis for every child. *)
Fixpoint Node_tree_ind (P : Node -> Prop)
    (Htext : forall s, P (Text s))
    (Hcomment : forall s, P (Comment s))
    (Helem : forall name attrs children,
        Forall P children -> P (Elem name attrs children))
    (n : Node) : P n :=
  match n with
  | Text s => Htext s
  | Comment s => Hcomment s
  | Elem name attrs children =>
      Helem name attrs children
        ((fix all (l : list Node) : Forall P l :=
            match l with
            | [] => @List.Forall_nil Node P
            | c :: l' =>
                @List.Forall_cons Node P c l'
                  (Node_tree_ind P Htext Hcomment Helem c) (all l')
            end) children)
  end.

Lemma sizeAll_app (l1 l2 : list Node) :
  Dom.sizeAll (l1 ++ l2) = (Dom.sizeAll l1 + Dom.sizeAll l2)%nat.
Proof. unfold Dom.sizeAll. now rewrite map_app, list_sum_app. Qed.

Lemma sizeAll_cons (n : Node) (l : list Node) :
  Dom.sizeAll (n :: l) = (Dom.size n + Dom.sizeAll l)%nat.
Proof. reflexivity. Qed.

Lemma size_elem (name : string) (attrs : list (string * string)) (children : list Node) :
  Dom.size (Elem name attrs children) = S (Dom.sizeAll children).
Proof. reflexivity. Qed.

Lemma size_pos (n : Node) : (1 <= Dom.size n)%nat.
Proof. destruct n; [cbn; lia | cbn; lia | rewrite size_elem; lia]. Qed.

Lemma size_children (n : Node) : (Dom.sizeAll (Dom.childNodes n) < Dom.size n)%nat.
Proof.
  destruct n; [cbn; lia | cbn; lia |].
  rewrite size_elem. cbn [Dom.childNodes]. lia.
Qed.

Lemma size_descendant (n b : Node) :
  In b (Dom.descendants n) -> (Dom.size b < Dom.size n)%nat.
Proof.
  revert b. induction n as [s|s|name attrs children IH] using Node_tree_ind;
    intros b Hin; try contradiction.
  cbn [Dom.descendants] in Hin. rewrite size_elem.
  induction IH as [|c children Hc _ IHl]; [contradiction|].
  cbn [flat_map] in Hin. rewrite sizeAll_cons.
  destruct Hin as [<- | Hin]; [lia|].
  apply in_app_or in Hin as [Hin | Hin].
  - specialize (Hc b Hin). lia.
  - specialize (IHl Hin). lia.
Qed.

(** *** The routing table *)

Lemma route_tags (name : string) :
  route name <> None <-> In name routedTags.
Proof.
  unfold route, routedTags. split.
  - repeat match goal with
           | |- context [String.eqb name ?t] =>
               destruct (String.eqb_spec name t) as [-> | ?];
               [intros _; cbn; auto 12 |]
           end.
    intros Hr. exfalso. apply Hr. reflexivity.
  - intros Hin. cbn in Hin.
    repeat destruct Hin as [<- | Hin]; try discriminate. contradiction.
Qed.

Lemma route_never_mixin (name : string) : route name <> Some ToIncludeMixin.
Proof.
  unfold route.
  repeat match goal with
         | |- context [String.eqb name ?t] => destruct (String.eqb name t)
         end; discriminate.
Qed.

(** *** What a finished walk leaves *)

Definition leavesDrained (stepf : Walker) : Prop :=
  forall d nodes d' out, stepf d nodes = Some (d', out) -> forallb drained out = true.

Lemma drained_app (l1 l2 : list Node) :
  forallb drained l1 = true -> forallb drained l2 = true ->
  forallb drained (l1 ++ l2) = true.
Proof. intros H1 H2. now rewrite forallb_app, H1, H2. Qed.

Lemma scan_drained (h : Handlers) (stepf : Walker) :
  leavesDrained stepf ->
  forall rest d before d' out,
    forallb drained before = true ->
    scan h stepf d before rest = Some (d', out) ->
    forallb drained out = true.
Proof.
  intros Hstepf rest.
  induction rest as [|child after IH]; intros d before d' out Hbefore Hscan.
  - cbn in Hscan. now inversion Hscan; subst.
  - destruct child as [s|s|name attrs children]; cbn [scan] in Hscan.
    + eapply IH; [|exact Hscan]. now apply drained_app.
    + eapply IH; [|exact Hscan]. now apply drained_app.
    + destruct (route (Str.toLowerCase name)) as [r|] eqn:Hroute.
      * destruct (handlerOf h stepf r d before (Elem name attrs children) after)
          as [[d1 nodes1]|]; cbn in Hscan; [|discriminate].
        exact (Hstepf _ _ _ _ Hscan).
      * destruct children as [|c children'].
        -- eapply IH; [|exact Hscan]. apply drained_app; [assumption|].
           cbn. now rewrite Hroute.
        -- destruct (stepf d (c :: children')) as [[d1 children1]|] eqn:Hwalk;
             cbn in Hscan; [|discriminate].
           eapply IH; [|exact Hscan]. apply drained_app; [assumption|].
           cbn. rewrite Hroute, (Hstepf _ _ _ _ Hwalk). reflexivity.
Qed.

Lemma step_leaves_drained (h : Handlers) (fuel : nat) : leavesDrained (step h fuel).
Proof.
  induction fuel as [|fuel IH]; intros d nodes d' out Hstep.
  - discriminate.
  - exact (scan_drained h (step h fuel) IH nodes d [] d' out eq_refl Hstep).
Qed.

(** *** A walk with shrinking handlers returns *)

Definition returnsBelow (bound : nat) (stepf : Walker) : Prop :=
  forall d nodes,
    (Dom.sizeAll nodes < bound)%nat ->
    exists d' out,
      stepf d nodes = Some (d', out) /\ (Dom.sizeAll out <= Dom.sizeAll nodes)%nat.

Lemma caseBlock_shrinks (stepf : Walker) (bound : nat) :
  returnsBelow bound stepf ->
  forall d before element after,
    (Dom.sizeAll (before ++ element :: after) <= bound)%nat ->
    exists d' out,
      caseBlock stepf d before element after = Some (d', out) /\
      (Dom.sizeAll out < Dom.sizeAll (before ++ element :: after))%nat.
Proof.
  intros Hstepf d before element after Hbound.
  rewrite CaseFacts.caseBlock_find.
  rewrite sizeAll_app, sizeAll_cons in *.
  destruct (List.find _ _) as [branch|] eqn:Hfind.
  - apply List.find_some in Hfind as [Hin _].
    apply List.filter_In in Hin as [Hin _].
    apply size_descendant in Hin.
    pose proof (size_children branch) as Hch.
    destruct (Hstepf d (Dom.childNodes branch)) as (d' & frag & Hwalk & Hle); [lia|].
    unfold spliceBranch. rewrite Hwalk. cbn.
    exists d', (before ++ frag ++ after). split; [reflexivity|].
    rewrite !sizeAll_app. lia.
  - exists d, (before ++ after). split; [reflexivity|].
    rewrite sizeAll_app. pose proof (size_pos element). lia.
Qed.

Lemma handlerOf_shrinks (h : Handlers) (stepf : Walker) (bound : nat) (r : Route) :
  allShrink h -> returnsBelow bound stepf ->
  forall d before element after,
    (Dom.sizeAll (before ++ element :: after) <= bound)%nat ->
    exists d' out,
      handlerOf h stepf r d before element after = Some (d', out) /\
      (Dom.sizeAll out < Dom.sizeAll (before ++ element :: after))%nat.
Proof.
  intros (H1 & H2 & H3 & H4 & H5 & H6 & H7 & H8) Hstepf d before element after Hbound.
  destruct r; cbn [handlerOf]; try solve [auto].
  - now apply (caseBlock_shrinks stepf bound).
  - exists d, (before ++ after). split; [reflexivity|].
    rewrite !sizeAll_app, sizeAll_cons. pose proof (size_pos element). lia.
Qed.

Lemma scan_returns (h : Handlers) (stepf : Walker) (bound : nat) :
  allShrink h -> returnsBelow bound stepf ->
  forall rest d before,
    (Dom.sizeAll before + Dom.sizeAll rest <= bound)%nat ->
    exists d' out,
      scan h stepf d before rest = Some (d', out) /\
      (Dom.sizeAll out <= Dom.sizeAll before + Dom.sizeAll rest)%nat.
Proof.
  intros Hh Hstepf rest.
  induction rest as [|child after IH]; intros d before Hbound.
  - exists d, before. split; [reflexivity|]. cbn. lia.
  - rewrite sizeAll_cons in *.
    assert (Hpass : forall d1 child1,
               (Dom.size child1 <= Dom.size child)%nat ->
               exists d' out,
                 scan h stepf d1 (before ++ [child1]) after = Some (d', out) /\
                 (Dom.sizeAll out <= Dom.sizeAll before + (Dom.size child + Dom.sizeAll after))%nat).
    { intros d1 child1 Hle.
      destruct (IH d1 (before ++ [child1])) as (d' & out & Hscan & Hsize).
      - rewrite sizeAll_app, sizeAll_cons. cbn. lia.
      - exists d', out. split; [exact Hscan|].
        rewrite sizeAll_app, sizeAll_cons in Hsize. cbn in Hsize. lia. }
    destruct child as [s|s|name attrs children]; cbn [scan].
    + now apply Hpass.
    + now apply Hpass.
    + destruct (route (Str.toLowerCase name)) as [r|].
      * destruct (handlerOf_shrinks h stepf bound r Hh Hstepf d before
                    (Elem name attrs children) after)
          as (d1 & nodes1 & Hrun & Hlt).
        { rewrite sizeAll_app, sizeAll_cons. lia. }
        rewrite Hrun. cbn [mbind option_bind].
        rewrite sizeAll_app, sizeAll_cons in Hlt.
        destruct (Hstepf d1 nodes1) as (d' & out & Hwalk & Hle); [lia|].
        exists d', out. split; [exact Hwalk|]. lia.
      * destruct children as [|c children'].
        -- now apply Hpass.
        -- pose proof (size_children (Elem name attrs (c :: children'))) as Hch.
           cbn [Dom.childNodes] in Hch.
           destruct (Hstepf d (c :: children')) as (d1 & children1 & Hwalk & Hle); [lia|].
           rewrite Hwalk. cbn [mbind option_bind].
           apply Hpass. rewrite !size_elem. lia.
Qed.

Lemma step_returns (h : Handlers) :
  allShrink h ->
  forall fuel, returnsBelow fuel (step h fuel).
Proof.
  intros Hh fuel. induction fuel as [|fuel IH]; intros d nodes Hsize; [lia|].
  cbn [step].
  destruct (scan_returns h (step h fuel) fuel Hh IH nodes d []) as (d' & out & Hscan & Hle).
  - cbn. lia.
  - exists d', out. split; [exact Hscan|]. cbn in Hle. lia.
Qed.

(** *** Tags left by a finished walk *)

Lemma drained_no_routed_tag (t : string) (n : Node) :
  In t routedTags -> drained n = true -> occurs t n = false.
Proof.
  intros Ht. induction n as [s|s|name attrs children IH] using Node_tree_ind;
    intros Hd; try reflexivity.
  cbn [drained] in Hd. cbn [occurs].
  destruct (route (Str.toLowerCase name)) eqn:Hroute; [discriminate|].
  destruct (String.eqb_spec (Str.toLowerCase name) t) as [Heq | _].
  - rewrite Heq in Hroute. apply route_tags in Ht. contradiction.
  - cbn [orb]. induction IH as [|c children Hc _ IHl]; [reflexivity|].
    cbn [forallb] in Hd. apply andb_prop in Hd as [Hdc Hdl].
    cbn [existsb]. now rewrite (Hc Hdc), (IHl Hdl).
Qed.

Lemma drained_no_routed_tags (t : string) (l : list Node) :
  In t routedTags -> forallb drained l = true -> existsb (occurs t) l = false.
Proof.
  intros Ht. induction l as [|n l IH]; intros Hd; [reflexivity|].
  cbn [forallb] in Hd. apply andb_prop in Hd as [Hn Hl].
  cbn [existsb]. now rewrite (drained_no_routed_tag t n Ht Hn), (IH Hl).
Qed.

Lemma removers_shrink : allShrink removers.
Proof.
  assert (H : shrinks remove).
  { intros d before element after. exists d, (before ++ after).
    split; [reflexivity|].
    rewrite !sizeAll_app, sizeAll_cons. pose proof (size_pos element). lia. }
  repeat split; exact H.
Qed.




(** *** The handler of mixin invocations *)

Lemma handlerOf_withIncludeMixin (m : Handler) (h : Handlers) (stepf : Walker) (r : Route) :
  r <> ToIncludeMixin ->
  handlerOf (withIncludeMixin m h) stepf r = handlerOf h stepf r.
Proof. intros Hr. destruct r; try reflexivity. contradiction. Qed.

Lemma caseBlock_ext (sf1 sf2 : Walker) :
  (forall d nodes, sf1 d nodes = sf2 d nodes) ->
  forall d before element after,
    caseBlock sf1 d before element after = caseBlock sf2 d before element after.
Proof.
  intros Hext d before element after. unfold caseBlock.
  destruct (caseLoop _ _ _); [|reflexivity]. now rewrite Hext.
Qed.

Lemma handlerOf_ext (h : Handlers) (sf1 sf2 : Walker) (r : Route) :
  (forall d nodes, sf1 d nodes = sf2 d nodes) ->
  forall d before element after,
    handlerOf h sf1 r d before element after = handlerOf h sf2 r d before element after.
Proof.
  intros Hext d before element after. destruct r; try reflexivity.
  now apply caseBlock_ext.
Qed.

Lemma scan_withIncludeMixin (m : Handler) (h : Handlers) (sf1 sf2 : Walker) :
  (forall d nodes, sf1 d nodes = sf2 d nodes) ->
  forall rest d before,
    scan (withIncludeMixin m h) sf1 d before rest = scan h sf2 d before rest.
Proof.
  intros Hext rest. induction rest as [|child after IH]; intros d before.
  - reflexivity.
  - destruct child as [s|s|name attrs children]; cbn [scan]; try apply IH.
    destruct (route (Str.toLowerCase name)) as [r|] eqn:Hroute.
    + rewrite handlerOf_withIncludeMixin
        by (intros ->; exact (route_never_mixin _ Hroute)).
      rewrite (handlerOf_ext h sf1 sf2 r Hext).
      destruct (handlerOf h sf2 r d before (Elem name attrs children) after)
        as [[d1 nodes1]|]; [|reflexivity].
      cbn [mbind option_bind]. apply Hext.
    + destruct children as [|c children']; [apply IH|].
      rewrite Hext. destruct (sf2 d (c :: children')) as [[d1 children1]|]; [|reflexivity].
      cbn [mbind option_bind]. apply IH.
Qed.

(** C5 (the code at the failing input): no tag name is routed to the
    handler of mixin invocations, because its label in the [switch]
    repeats the label [include] of an earlier arm; an [include] element
    goes to the handler of file inclusion, and the result of a walk does
    not depend on the mixin handler at all. *)
Theorem mixin_handler_unreachable :
  (forall name, route name <> Some ToIncludeMixin) /\
  route "include" = Some ToIncludeBlock /\
  step markers 2 CaseFacts.noData [Elem "include" [("mixin", "card")] []]
    = Some (CaseFacts.noData, [Text "includeBlock"]) /\
  (forall m h fuel d nodes,
      step (withIncludeMixin m h) fuel d nodes = step h fuel d nodes).
Proof.
  split; [exact route_never_mixin|]. split; [reflexivity|]. split; [reflexivity|].
  intros m h fuel. induction fuel as [|fuel IH]; intros d nodes; [reflexivity|].
  cbn [step]. now apply scan_withIncludeMixin.
Qed.

(** *** Text nodes *)

Lemma scan_keeps_drained (h : Handlers) (stepf : Walker) (bound : nat) :
  (forall d nodes,
      forallb drained nodes = true -> (Dom.sizeAll nodes < bound)%nat ->
      stepf d nodes = Some (d, nodes)) ->
  forall rest d before,
    forallb drained rest = true -> (Dom.sizeAll rest <= bound)%nat ->
    scan h stepf d before rest = Some (d, before ++ rest).
Proof.
  intros Hstepf rest. induction rest as [|child after IH]; intros d before Hd Hsize.
  - cbn. now rewrite app_nil_r.
  - cbn [forallb] in Hd. apply andb_prop in Hd as [Hchild Hafter].
    rewrite sizeAll_cons in Hsize.
    assert (Hnext : scan h stepf d (before ++ [child]) after = Some (d, before ++ child :: after)).
    { rewrite IH by (assumption || lia). now rewrite <- app_assoc. }
    destruct child as [s|s|name attrs children]; cbn [scan]; try exact Hnext.
    cbn [drained] in Hchild.
    destruct (route (Str.toLowerCase name)); [discriminate|].
    destruct children as [|c children']; [exact Hnext|].
    rewrite size_elem in Hsize.
    rewrite Hstepf by (assumption || lia).
    cbn [mbind option_bind]. exact Hnext.
Qed.

Definition ann : TemplateData := mkTemplateData (VObj [("name", VStr "Ann")]) [].

(** C6 (counterexample): the walk leaves the placeholder of a text node
    as it is written, where the substituted text would read [Hi Ann]. *)
Lemma step_leaves_placeholder_text :
  step removers 1 ann [Text "Hi {{$name}}"] = Some (ann, [Text "Hi {{$name}}"]) /\
  specText ann "Hi {{$name}}" = "Hi Ann" /\
  step removers 1 ann [Text "Hi {{$name}}"]
    <> Some (ann, [Text (specText ann "Hi {{$name}}")]).
Proof. repeat split. vm_compute. discriminate. Qed.

(** C6 (as amended): the walk does not rewrite text: a text node met by
    the scan is passed over with its content as it is, and a tree without
    an element that the dispatcher routes to a handler comes out of the
    walk unchanged, the placeholders of its text nodes included. *)
Theorem step_keeps_text (h : Handlers) :
  (forall stepf d before s rest,
      scan h stepf d before (Text s :: rest) = scan h stepf d (before ++ [Text s]) rest) /\
  (forall fuel d nodes,
      forallb drained nodes = true -> (Dom.sizeAll nodes < fuel)%nat ->
      step h fuel d nodes = Some (d, nodes)).
Proof.
  split; [reflexivity|].
  intros fuel. induction fuel as [|fuel IH]; intros d nodes Hd Hsize; [lia|].
  cbn [step]. apply (scan_keeps_drained h (step h fuel) fuel IH nodes d [] Hd). lia.
Qed.

Lemma step_keeps_text_witness :
  step markers 4 ann [Elem "p" [] [Text "Hi {{$name}}"]; Text "{{$name}}"]
  = Some (ann, [Elem "p" [] [Text "Hi {{$name}}"]; Text "{{$name}}"]).
Proof.
  apply (proj2 (step_keeps_text markers) 4%nat ann
           [Elem "p" [] [Text "Hi {{$name}}"]; Text "{{$name}}"]).
  - reflexivity.
  - cbn. lia.
Defined.

End StepFacts.

(** ** The resolver *)

Module ResolverFacts.
Import Resolver.

Section Returned.

Variable dirname : string -> string.
Variable resolve : string -> string -> string.
Variable parseFile : string -> Loaded.

(** A template whose root has no [extends] child is returned as it is. *)
Lemma extend_without_extends (fuel : nat) (tpl : Template) :
  queryScopeChild "extends" (document tpl) = None ->
  extend dirname resolve parseFile fuel tpl = (Some tpl, []).
Proof. intros Hq. destruct fuel; cbn [extend]; now rewrite Hq. Qed.

(** The document of a template is never put into a tree: the splice has
    no outcome in which an element is replaced. *)
Lemma spliceExtends_document (doc root : Node) :
  spliceExtends doc (OfDocument root) =
  if Dom.hasTag "extends" doc then NotReplaced
  else if Dispatch.occurs "extends" doc then Thrown else NotReplaced.
Proof.
  unfold spliceExtends. destruct (Dom.hasTag "extends" doc) eqn:Hroot; [reflexivity|].
  enough (Hocc : forall n, Dom.hasTag "extends" n = false ->
                 is_Some (replaceFirst "extends" root n) <-> Dispatch.occurs "extends" n = true).
  { specialize (Hocc doc Hroot).
    destruct (replaceFirst "extends" root doc) as [doc'|].
    - now rewrite (proj1 Hocc (mk_is_Some _ _ eq_refl)).
    - destruct (Dispatch.occurs "extends" doc); [|reflexivity].
      destruct (proj2 Hocc eq_refl) as [? ?]. discriminate. }
  clear doc Hroot.
  assert (Htag : forall n, Dom.hasTag "extends" n = true -> Dispatch.occurs "extends" n = true).
  { intros [t|t|name attrs children]; try discriminate.
    unfold Dom.hasTag. cbn [Dom.tagOf Dispatch.occurs]. now intros ->. }
  assert (Hall : forall n,
             is_Some (replaceFirst "extends" root n) <-> Dispatch.occurs "extends" n = true).
  { fix IH 1. intros [t|t|name attrs children].
    - split; [intros [? ?]; discriminate|discriminate].
    - split; [intros [? ?]; discriminate|discriminate].
    - change (replaceFirst "extends" root (Elem name attrs children))
        with (if Dom.hasTag "extends" (Elem name attrs children) then Some root
              else Elem name attrs <$>
                   (fix inList (l : list Node) : option (list Node) :=
                      match l with
                      | [] => None
                      | c :: l' =>
                          match replaceFirst "extends" root c with
                          | Some c' => Some (c' :: l')
                          | None => cons c <$> inList l'
                          end
                      end) children).
      destruct (Dom.hasTag "extends" (Elem name attrs children)) eqn:Hroot.
      + split; [intros _; now apply Htag|intros _; now eexists].
      + cbn [Dispatch.occurs]. unfold Dom.hasTag in Hroot. cbn [Dom.tagOf] in Hroot.
        rewrite Hroot. cbn [orb].
        induction children as [|c l IHl].
        * split; [intros [? ?]; discriminate|discriminate].
        * cbn [existsb]. destruct (IH c) as [Hc1 Hc2].
          destruct (replaceFirst "extends" root c) as [c'|].
          -- rewrite (Hc1 (mk_is_Some _ _ eq_refl)). split; [reflexivity|intros _; now eexists].
          -- destruct (Dispatch.occurs "extends" c) eqn:Hoc.
             ++ destruct (Hc2 eq_refl) as [? ?]. discriminate.
             ++ cbn [orb]. rewrite <- IHl. rewrite !fmap_is_Some. reflexivity. }
  intros n _. apply Hall.
Qed.

(** What [extend] returns is the template it was given or the template
    loaded from the file that its [extends] child names, as it was
    loaded; no call on that parent is made. *)
Lemma extend_returns_self_or_parent (fuel : nat) (tpl : Template) :
  (extend dirname resolve parseFile fuel tpl).2 = [] /\
  forall top,
    (extend dirname resolve parseFile fuel tpl).1 = Some top ->
    top = tpl \/
    exists item name parent,
      queryScopeChild "extends" (document tpl) = Some item /\
      Dom.getAttribute "file" item = Some name /\
      parseFile (resolve (dirname (file tpl))
                   (name +:+ (if negb (Str.endsWith ".rtpl" name) then ".rtpl" else "")))
      = Parsed parent /\
      top = mkTemplate (document parent) (file parent) (Some tpl) /\
      spliceExtends (document parent) (OfDocument (document tpl)) = NotReplaced.
Proof.
  destruct fuel as [|fuel]; cbn [extend].
  all: destruct (queryScopeChild "extends" (document tpl)) as [item|] eqn:Hitem;
    [|split; [reflexivity|intros top Hrun; left; now inversion Hrun]].
  all: destruct (Dom.getAttribute "file" item) as [name|] eqn:Hfile;
    [|split; [reflexivity|intros top Hrun; left; now inversion Hrun]].
  all: destruct (Str.isEmpty name);
    [split; [reflexivity|intros top Hrun; left; now inversion Hrun]|].
  all: destruct (parseFile _) as [parent| |] eqn:Hload;
    [|split; [reflexivity|intros top Hrun; left; now inversion Hrun]
     |split; [reflexivity|discriminate]].
  all: cbn [document file child].
  all: pose proof (spliceExtends_document (document parent) (document tpl)) as Hsplice.
  all: destruct (spliceExtends (document parent) (OfDocument (document tpl))) as [|doc'|] eqn:Hs.
  all: try (destruct (Dom.hasTag "extends" (document parent));
            [discriminate|destruct (Dispatch.occurs "extends" (document parent)); discriminate]).
  all: try (split; [reflexivity|discriminate]).
  all: split; [reflexivity|].
  all: intros top Hrun; injection Hrun as <-; right.
  all: exists item, name, parent; repeat split; try assumption; reflexivity.
Qed.

(** C1 (the code on a chain): when the template names a parent and the
    parent in turn has an [extends] child, the call does not return the
    top of the chain.  The parent holds an [extends] element with a
    parent element, so [replaceWith] is handed the document of the
    template and throws: [extend] rejects, before any call on the parent
    is made and without the file of the grandparent being asked for.
    Only a parent whose root element is itself an [extends] element
    comes back, as it was loaded.  In no case is a template returned
    whose tree is free of [extends] elements. *)
Theorem extend_chain_rejects (fuel : nat) (tpl parent : Template)
    (item next : Node) (name : string) :
  queryScopeChild "extends" (document tpl) = Some item ->
  Dom.getAttribute "file" item = Some name ->
  Str.isEmpty name = false ->
  parseFile (resolve (dirname (file tpl))
               (name +:+ (if negb (Str.endsWith ".rtpl" name) then ".rtpl" else "")))
  = Parsed parent ->
  queryScopeChild "extends" (document parent) = Some next ->
  extend dirname resolve parseFile fuel tpl =
  (if Dom.hasTag "extends" (document parent)
   then Some (mkTemplate (document parent) (file parent) (Some tpl))
   else None, []) /\
  (forall top,
      (extend dirname resolve parseFile fuel tpl).1 = Some top ->
      Dispatch.occurs "extends" (document top) = true).
Proof.
  intros Hitem Hfile Hname Hload Hnext.
  assert (Hocc : Dispatch.occurs "extends" (document parent) = true).
  { unfold queryScopeChild in Hnext. apply List.find_some in Hnext as [Hin Htag].
    destruct (document parent) as [t|t|pname attrs children]; try contradiction.
    cbn [Dom.childNodes] in Hin. cbn [Dispatch.occurs].
    enough (existsb (Dispatch.occurs "extends") children = true) as -> by apply orb_true_r.
    apply existsb_exists. exists next. split; [exact Hin|].
    destruct next as [t|t|nname nattrs nchildren]; try discriminate.
    unfold Dom.hasTag in Htag. cbn [Dom.tagOf] in Htag. cbn [Dispatch.occurs].
    now rewrite Htag. }
  assert (Hrun : extend dirname resolve parseFile fuel tpl =
                 (if Dom.hasTag "extends" (document parent)
                  then Some (mkTemplate (document parent) (file parent) (Some tpl))
                  else None, [])).
  { destruct fuel; cbn [extend]; rewrite Hitem, Hfile, Hname, Hload.
    all: cbn [document file child].
    all: rewrite spliceExtends_document, Hocc.
    all: destruct (Dom.hasTag "extends" (document parent)); reflexivity. }
  split; [exact Hrun|].
  intros top. rewrite Hrun. cbn [fst].
  destruct (Dom.hasTag "extends" (document parent)); [|discriminate].
  intros [= <-]. exact Hocc.
Qed.

End Returned.

(** A chain of three templates: the page extends the layout, the layout
    extends the shell, the shell has the slot. *)
Definition page : Template :=
  mkTemplate
    (Elem "root" [] [Elem "extends" [("file", "layout")] []; Elem "p" [] [Text "page"]])
    "page.rtpl" None.

Definition layout : Template :=
  mkTemplate
    (Elem "root" [] [Elem "extends" [("file", "shell")] []; Elem "nav" [] [Text "layout"]])
    "layout.rtpl" None.

Definition shell : Template :=
  mkTemplate
    (Elem "root" [] [Elem "header" [] []; Elem "extends" [] []; Elem "footer" [] []])
    "shell.rtpl" None.

Definition files (target : string) : Loaded :=
  if String.eqb target "layout.rtpl" then Parsed layout
  else if String.eqb target "shell.rtpl" then Parsed shell
  else LoadFailure.

(** All templates in one directory. *)
Definition flatDirname (path : string) : string := "".
Definition flatResolve (dir name : string) : string := name.

Lemma extend_chain_rejects_witness :
  extend flatDirname flatResolve files 8 page = (None, []) /\
  extend flatDirname flatResolve files 8 shell = (Some shell, []).
Proof.
  split; [|reflexivity].
  exact (proj1 (extend_chain_rejects flatDirname flatResolve files 8 page layout
                  (Elem "extends" [("file", "layout")] [])
                  (Elem "extends" [("file", "shell")] []) "layout"
                  eq_refl eq_refl eq_refl eq_refl eq_refl)).
Defined.

End ResolverFacts.

(** ** The [each] handler *)

Module EachFacts.
Import Each.

(** *** Global replacement with a callback that gives the match back *)

Lemma take_drop (n : nat) (s : string) : Str.take n s +:+ Str.drop n s = s.
Proof.
  revert s. induction n as [|n IH]; intros s; [reflexivity|].
  destruct s as [|c s]; [reflexivity|].
  cbn [Str.take Str.drop]. rewrite HolderFacts.app_cons. f_equal. apply IH.
Qed.

Lemma replaceGo_identity (matchAt : string -> option nat) (cb : string -> string) :
  (forall s n, matchAt s = Some n -> (1 <= n)%nat) ->
  (forall full, cb full = full) ->
  forall s skip, Re.replaceGo matchAt cb skip s = Str.drop skip s.
Proof.
  intros Hpos Hcb s. induction s as [|c s IH]; intros skip.
  - now destruct skip.
  - cbn [Re.replaceGo]. destruct skip as [|k]; [|apply IH].
    destruct (matchAt (String c s)) as [n|] eqn:Hm.
    + rewrite Hcb, IH. apply Hpos in Hm.
      destruct n as [|n]; [lia|].
      replace (S n - 1)%nat with n by lia.
      exact (take_drop (S n) (String c s)).
    + rewrite IH. reflexivity.
Qed.

Lemma holderLazy_pos (s : string) (n : nat) : holderLazy s = Some n -> (1 <= n)%nat.
Proof.
  unfold holderLazy. destruct (Re.holderBody _ _ _); cbn; [|discriminate].
  intros [= <-]. lia.
Qed.

Section Recovery.

Variable runInContext : string -> Context -> option Value.
Variable stepc : Context -> Node -> option (Context * Node).
Variable serialize : list Node -> string.
Variable parse : string -> list Node.

Abbreviation each' := (each runInContext stepc serialize parse).
Abbreviation eachChild' := (eachChild runInContext stepc serialize parse).
Abbreviation eachEntry' := (eachEntry runInContext stepc serialize parse).

Abbreviation walksKeepContext := (walksKeepContext stepc).

Lemma eachChild_keeps_context :
  walksKeepContext ->
  forall children context,
    exists frag, eachChild' context children = Some (context, frag).
Proof.
  intros Hstep children. induction children as [|c rest IH]; intros context.
  - now exists [].
  - cbn [eachChild].
    destruct (Hstep context (fillClone runInContext serialize parse context c))
      as (clone & ->).
    cbn [mbind option_bind]. destruct (IH context) as (frag & ->).
    now exists (clone :: frag).
Qed.

Lemma eachEntry_binds (key value : string) (children : list Node) :
  walksKeepContext ->
  forall entries context,
    exists frag,
      eachEntry' key value children context entries
      = Some (boundAll key value entries context, frag).
Proof.
  intros Hstep entries. induction entries as [|entry rest IH]; intros context.
  - now exists [].
  - cbn [eachEntry boundAll fold_left].
    destruct (eachChild_keeps_context Hstep children (bind key value entry context))
      as (frag & ->).
    cbn [mbind option_bind].
    destruct (IH (bind key value entry context)) as (frag' & ->).
    now exists (frag ++ frag').
Qed.

Lemma boundAll_last (key value : string) (entries : list (string * Value))
    (i : string) (v : Value) (context : Context) :
  boundAll key value (entries ++ [(i, v)]) context
  = bind key value (i, v) (boundAll key value entries context).
Proof. unfold boundAll. now rewrite fold_left_app. Qed.



End Recovery.

(** A context with a collection of two items. *)
Definition twoItems : Context := <["items" := VArr [VNum 1; VNum 2]]> ∅.

Definition loopOverItems : Node :=
  Elem "each" [(":", "v in items")] [Text "{{v}};"].


Lemma idle_keeps_context : walksKeepContext idle.
Proof. intros c n. now exists n. Qed.




End EachFacts.

(** ** Splitting and joining *)

Module SplitFacts.
Import HolderFacts.

Lemma app_assoc (a b c : string) : (a +:+ b) +:+ c = a +:+ (b +:+ c).
Proof. induction a as [|x a IH]; [reflexivity|]. rewrite !app_cons. now rewrite IH. Qed.

Lemma splitGo_not_nil (sep : string) (s : string) (skip : nat) (cur : string) :
  Str.splitGo sep skip cur s <> [].
Proof.
  revert skip cur. induction s as [|c s IH]; intros skip cur; cbn [Str.splitGo].
  - discriminate.
  - destruct skip; [|apply IH]. destruct (Str.startsWith sep (String c s)); [discriminate|apply IH].
Qed.

Lemma join_cons (sep p : string) (rest : list string) :
  rest <> [] -> Str.join sep (p :: rest) = p +:+ sep +:+ Str.join sep rest.
Proof. intros Hne. destruct rest; [contradiction|reflexivity]. Qed.

Lemma startsWith_drop (p s : string) :
  Str.startsWith p s = true -> p +:+ Str.drop (Str.len p) s = s.
Proof.
  revert s. induction p as [|a p IH]; intros s Hs; [reflexivity|].
  destruct s as [|b s]; [discriminate|]. cbn [Str.startsWith] in Hs.
  destruct (Ascii.eqb_spec a b) as [-> | _]; [|discriminate].
  rewrite app_cons. cbn [Str.len String.length Str.drop]. f_equal. now apply IH.
Qed.

(** Joining the pieces of a split with the separator gives the text back. *)
Lemma join_splitGo (sep : string) :
  sep <> EmptyString ->
  forall s skip cur,
    Str.join sep (Str.splitGo sep skip cur s) = cur +:+ Str.drop skip s.
Proof.
  intros Hsep s. induction s as [|c s IH]; intros skip cur.
  - cbn. destruct skip; cbn; now rewrite app_empty_r.
  - cbn [Str.splitGo]. destruct skip as [|k]; [|now rewrite IH].
    destruct (Str.startsWith sep (String c s)) eqn:Hs.
    + rewrite join_cons by apply splitGo_not_nil. rewrite IH.
      cbn [Str.drop]. f_equal.
      destruct sep as [|a sep']; [contradiction|].
      cbn [Str.len String.length]. replace (S (String.length sep') - 1)%nat
        with (String.length sep') by lia.
      pose proof (startsWith_drop (String a sep') (String c s) Hs) as Hd.
      cbn [Str.len String.length Str.drop] in Hd. exact Hd.
    + rewrite IH. cbn [Str.drop]. rewrite app_assoc. reflexivity.
Qed.

Lemma join_split (sep s : string) :
  sep <> EmptyString -> Str.join sep (Str.split sep s) = s.
Proof. intros Hsep. unfold Str.split. now rewrite join_splitGo. Qed.

(** Splitting on a one-character separator. *)
Lemma splitGo_char_app (d : ascii) (p q cur : string) :
  Str.splitGo (String d EmptyString) O cur (p +:+ String d q)
  = Str.splitGo (String d EmptyString) O cur p
    ++ Str.splitGo (String d EmptyString) O EmptyString q.
Proof.
  revert cur. induction p as [|c p IH]; intros cur.
  - cbn [String.append Str.splitGo Str.startsWith]. change (EmptyString +:+ String d q) with (String d q).
    cbn [Str.splitGo Str.startsWith]. rewrite Ascii.eqb_refl. reflexivity.
  - rewrite app_cons. cbn [Str.splitGo Str.startsWith].
    destruct (Ascii.eqb d c); cbn [Str.len String.length Nat.sub].
    + rewrite IH. reflexivity.
    + apply IH.
Qed.

Lemma splitGo_char_none (d : ascii) (p cur : string) :
  Vars.hasChar d p = false ->
  Str.splitGo (String d EmptyString) O cur p = [cur +:+ p].
Proof.
  revert cur. induction p as [|c p IH]; intros cur Hp.
  - cbn. now rewrite app_empty_r.
  - cbn [Vars.hasChar] in Hp. apply orb_false_elim in Hp as [Hc Hp].
    cbn [Str.splitGo Str.startsWith]. rewrite Ascii.eqb_sym, Hc.
    rewrite (IH _ Hp). now rewrite app_assoc.
Qed.

End SplitFacts.

(** ** Paths *)

Module FindFacts.
Import Tpl.

Lemma descend_falsy (segments : list string) (v : Value) :
  Js.truthy v = false ->
  fold_left (fun obj val => if Js.truthy obj then Js.getProp obj val else obj) segments v = v.
Proof.
  intros Hv. induction segments as [|k rest IH]; [reflexivity|].
  cbn [fold_left]. now rewrite Hv.
Qed.

Lemma find_dot (p q : string) (data : Value) :
  find (p +:+ "." +:+ q) data = find q (find p data).
Proof.
  unfold find, Str.split.
  change (p +:+ "." +:+ q) with (p +:+ String "." q).
  rewrite SplitFacts.splitGo_char_app. now rewrite fold_left_app.
Qed.

(** X1: a dotted path is looked up segment by segment: the lookup of
    [p.q] is the lookup of [q] in what the lookup of [p] gives, also when
    that is a value without properties, which is then the result. *)
Theorem find_compose (p q : string) (data : Value) :
  find (p +:+ "." +:+ q) data = find q (find p data) /\
  (Js.truthy (find p data) = false -> find (p +:+ "." +:+ q) data = find p data).
Proof.
  split; [apply find_dot|].
  intros Hfalsy. rewrite find_dot. now apply descend_falsy.
Qed.

Lemma find_compose_witness :
  find "a.b" (VObj [("a", VNum 0)]) = VNum 0.
Proof.
  exact (proj2 (find_compose "a" "b" (VObj [("a", VNum 0)])) eq_refl).
Defined.

(** X2: on missing data the lookup gives back the data or [undefined].
    A value that is [undefined], [null], [false], [0] or the empty text
    is given back as it is whatever the path.  The path of a name that an
    object neither has nor inherits from [Object.prototype] gives
    [undefined], with or without further segments.  A name that the
    object inherits ([constructor], [toString], ...) is not missing: its
    lookup gives the value of the engine. *)
Theorem find_missing (q : string) :
  (forall v, Js.truthy v = false -> find q v = v) /\
  (forall k fields,
      Vars.hasChar "." k = false ->
      Js.lookupOwn k fields = None ->
      (Js.inherited (VObj fields) k = false ->
       find k (VObj fields) = VUndef /\
       find (k +:+ "." +:+ q) (VObj fields) = VUndef) /\
      (Js.inherited (VObj fields) k = true -> find k (VObj fields) = VHost)).
Proof.
  split.
  - intros v Hv. now apply descend_falsy.
  - intros k fields Hk Hmiss.
    assert (Hfind : find k (VObj fields)
                    = if Js.inherited (VObj fields) k then VHost else VUndef).
    { unfold find, Str.split. rewrite (SplitFacts.splitGo_char_none _ _ _ Hk).
      cbn [fold_left Js.truthy]. change (EmptyString +:+ k) with k.
      unfold Js.getProp. cbn [Js.ownProperty]. now rewrite Hmiss. }
    split.
    + intros Hown. rewrite Hown in Hfind.
      split; [exact Hfind|]. rewrite find_dot, Hfind. now apply descend_falsy.
    + intros Hproto. now rewrite Hproto in Hfind.
Qed.

Lemma find_missing_witness :
  find "b" VNull = VNull /\
  find "user.name" (VObj [("a", VNum 0)]) = VUndef /\
  find "constructor" (VObj [("a", VNum 0)]) = VHost.
Proof.
  split; [|split].
  - exact (proj1 (find_missing "b") VNull eq_refl).
  - exact (proj2 (proj1 (proj2 (find_missing "name") "user" [("a", VNum 0)] eq_refl eq_refl)
                    eq_refl)).
  - exact (proj2 (proj2 (find_missing "") "constructor" [("a", VNum 0)] eq_refl eq_refl)
             eq_refl).
Defined.

End FindFacts.

(** ** Placeholders found in a text *)

Module VarsFacts.
Import Tpl Vars HolderFacts.

(** *** Texts without an occurrence of the opening mark *)

Lemma replaceGo_no_occurrence (p : string) (matchAt : string -> option nat)
    (cb : string -> string) :
  (forall t, Str.startsWith p t = false -> matchAt t = None) ->
  forall s, occursIn p s = false -> Re.replaceGo matchAt cb O s = s.
Proof.
  intros Hm s. induction s as [|c s IH]; intros Hs; [reflexivity|].
  cbn [occursIn] in Hs. apply orb_false_elim in Hs as [Hhere Hlater].
  cbn [Re.replaceGo]. rewrite (Hm _ Hhere). now rewrite (IH Hlater).
Qed.

Lemma matchesGo_no_occurrence (p : string) (matchAt : string -> option nat) :
  (forall t, Str.startsWith p t = false -> matchAt t = None) ->
  forall s, occursIn p s = false -> matchesGo matchAt O s = [].
Proof.
  intros Hm s. induction s as [|c s IH]; intros Hs; [reflexivity|].
  cbn [occursIn] in Hs. apply orb_false_elim in Hs as [Hhere Hlater].
  cbn [matchesGo]. rewrite (Hm _ Hhere). now apply IH.
Qed.

Lemma holderBody_needs_open (close : string -> option nat) (open t : string) :
  Str.startsWith open t = false -> Re.holderBody close open t = None.
Proof. intros Ht. unfold Re.holderBody. now rewrite Ht. Qed.

Lemma holderGreedy_needs_open (t : string) :
  Str.startsWith "{{$" t = false -> holderGreedy t = None.
Proof. intros Ht. unfold holderGreedy. now rewrite holderBody_needs_open. Qed.

Lemma holderAny_needs_open (t : string) :
  Str.startsWith "{{" t = false -> holderAny t = None.
Proof. intros Ht. unfold holderAny. now rewrite holderBody_needs_open. Qed.

(** X3: a control attribute in which the mark [{{$] does not occur comes
    out of [replaceHolders] as it is, whatever the data. *)
Theorem replaceHolders_plain (text : string) (data : Value) :
  occursIn "{{$" text = false -> replaceHolders text data = text.
Proof.
  intros Hplain. unfold replaceHolders, Re.replaceAll.
  now apply (replaceGo_no_occurrence "{{$" _ _ holderGreedy_needs_open).
Qed.

Lemma replaceHolders_plain_witness :
  replaceHolders "i == {2}" (VObj [("i", VNum 2)]) = "i == {2}".
Proof. apply replaceHolders_plain. reflexivity. Defined.

(** An integer up to [2^53] in absolute value is a Number, and is
    written digit by digit. *)
Lemma nearestNumber_safe (x : Z) :
  0 <= x <= 2 ^ 53 -> Js.nearestNumber x = Some x.
Proof.
  intros Hx. destruct (Z.eq_dec x (2 ^ 53)) as [-> | Hne]; [reflexivity|].
  unfold Js.nearestNumber.
  assert (Hlog : Z.log2 x <= 52).
  { destruct (Z.eq_dec x 0) as [-> | Hpos]; [cbn; lia|].
    apply Z.lt_succ_r. apply Z.log2_lt_pow2; lia. }
  apply Z.leb_le in Hlog. now rewrite Hlog.
Qed.

Lemma numberText_safe (n : Z) :
  Z.abs n <= 2 ^ 53 -> Js.numberText n = pretty n /\ Js.numberJson n = pretty n.
Proof.
  intros Hn.
  assert (Hnear : Js.nearestNumber (Z.abs n) = Some (Z.abs n)).
  { apply nearestNumber_safe. lia. }
  assert (Htext : Js.numberText n = pretty n).
  { unfold Js.numberText, Js.numberDigits. rewrite Hnear.
    apply Z.leb_le in Hn. rewrite Hn.
    destruct n as [|q|q]; reflexivity. }
  split; [exact Htext|]. unfold Js.numberJson. now rewrite Hnear.
Qed.



(** *** Lists of matches *)

Lemma existsb_eqb_In (x : string) (l : list string) :
  existsb (String.eqb x) l = true <-> In x l.
Proof.
  rewrite existsb_exists. split.
  - intros (y & Hy & Heq). apply String.eqb_eq in Heq. now subst.
  - intros Hx. exists x. split; [exact Hx|apply String.eqb_refl].
Qed.

Lemma dedupe_In (items seen : list string) (x : string) :
  In x (dedupe seen items) <-> In x items /\ ~ In x seen.
Proof.
  revert seen. induction items as [|y rest IH]; intros seen; cbn [dedupe].
  - cbn. tauto.
  - destruct (existsb (String.eqb y) seen) eqn:Hy.
    + apply existsb_eqb_In in Hy. rewrite IH. cbn [In]. split.
      * intros [H1 H2]. tauto.
      * intros [[-> | H1] H2]; [contradiction|tauto].
    + assert (Hny : ~ In y seen).
      { intros Hin. apply existsb_eqb_In in Hin. congruence. }
      cbn [In]. rewrite IH. cbn [In]. split.
      * intros [<- | [H1 H2]]; [tauto|]. split; [tauto|]. intros H3. apply H2. now right.
      * intros [[<- | H1] H2]; [now left|].
        destruct (String.eqb_spec y x) as [-> | Hne]; [now left|].
        right. split; [exact H1|]. intros [Heq | H3]; [congruence|contradiction].
Qed.

Lemma dedupe_NoDup (items seen : list string) : List.NoDup (dedupe seen items).
Proof.
  revert seen. induction items as [|y rest IH]; intros seen; cbn [dedupe].
  - constructor.
  - destruct (existsb (String.eqb y) seen); [apply IH|].
    constructor; [|apply IH].
    intros Hin. apply dedupe_In in Hin as [_ Hnot]. apply Hnot. now left.
Qed.

Lemma matchesGo_elem (matchAt : string -> option nat) (s : string) (skip : nat) (m : string) :
  In m (matchesGo matchAt skip s) ->
  exists t n, matchAt t = Some n /\ m = Str.take n t.
Proof.
  revert skip. induction s as [|c s IH]; intros skip Hin; [contradiction|].
  cbn [matchesGo] in Hin. destruct skip as [|k]; [|now apply (IH k)].
  destruct (matchAt (String c s)) as [n|] eqn:Hm; [|now apply (IH O)].
  destruct Hin as [<- | Hin]; [now exists (String c s), n|now apply (IH (n - 1)%nat)].
Qed.

Lemma matchesGo_skips_all (matchAt : string -> option nat) (s : string) (skip : nat) :
  (Str.len s <= skip)%nat -> matchesGo matchAt skip s = [].
Proof.
  revert skip. induction s as [|c s IH]; intros skip Hlen; [reflexivity|].
  destruct skip as [|k]; [cbn in Hlen; lia|].
  cbn [matchesGo]. apply IH. cbn in Hlen. unfold Str.len in *. lia.
Qed.

Lemma startsWith_take (t : string) (n : nat) : Str.startsWith (Str.take n t) t = true.
Proof.
  revert n. induction t as [|c t IH]; intros n; destruct n; try reflexivity.
  cbn [Str.take Str.startsWith]. rewrite Ascii.eqb_refl. apply IH.
Qed.

Lemma matchesGo_occurs (matchAt : string -> option nat) (s : string) (skip : nat) (m : string) :
  In m (matchesGo matchAt skip s) -> occursIn m s = true.
Proof.
  revert skip. induction s as [|c s IH]; intros skip Hin; [contradiction|].
  cbn [matchesGo] in Hin. cbn [occursIn].
  destruct skip as [|k]; [|rewrite (IH k Hin); apply orb_true_r].
  destruct (matchAt (String c s)) as [n|]; [|rewrite (IH O Hin); apply orb_true_r].
  destruct Hin as [<- | Hin].
  - now rewrite startsWith_take.
  - rewrite (IH _ Hin). apply orb_true_r.
Qed.

Lemma lazyClose_sound (r : string) (k : nat) :
  Re.lazyClose r = Some k ->
  Str.take (k + 2) r = Str.take k r +:+ "}}" /\ Str.singleLine (Str.take k r) = true.
Proof.
  revert k. induction r as [|c r IH]; intros k Hk; [discriminate|].
  cbn [Re.lazyClose] in Hk.
  destruct (Str.startsWith "}}" (String c r)) eqn:Hclose.
  - injection Hk as <-. split; [|reflexivity].
    pose proof (SplitFacts.startsWith_drop "}}" (String c r) Hclose) as Hd.
    rewrite <- Hd. reflexivity.
  - destruct (Str.isLineTerminator c) eqn:Hc; [discriminate|].
    destruct (Re.lazyClose r) as [k'|]; [|discriminate].
    injection Hk as <-. destruct (IH k' eq_refl) as [Htake Hline].
    cbn [Nat.add Str.take]. rewrite Htake, app_cons. split; [reflexivity|].
    cbn [Str.singleLine]. now rewrite Hc, Hline.
Qed.

Lemma holderAny_sound (t : string) (n : nat) :
  holderAny t = Some n ->
  exists body,
    body <> EmptyString /\ Str.singleLine body = true /\
    Str.take n t = "{{" +:+ body +:+ "}}".
Proof.
  unfold holderAny, Re.holderBody. intros Hm.
  destruct (Str.startsWith "{{" t) eqn:Hopen; [|discriminate].
  pose proof (SplitFacts.startsWith_drop "{{" t Hopen) as Ht.
  change (Str.len "{{") with 2%nat in *.
  destruct (Str.drop 2 t) as [|c rest] eqn:Hdrop; [discriminate|].
  destruct (Str.isLineTerminator c) eqn:Hc; [discriminate|].
  destruct (Re.lazyClose rest) as [k|] eqn:Hk; [|discriminate].
  cbn in Hm. injection Hm as <-.
  destruct (lazyClose_sound rest k Hk) as [Htake Hline].
  exists (String c (Str.take k rest)). split; [discriminate|]. split.
  - cbn [Str.singleLine]. now rewrite Hc, Hline.
  - rewrite <- Ht. change ("{{" +:+ String c rest)
      with (String "{" (String "{" (String c rest))).
    cbn [Str.take]. change (S (k + 2)) with (S (k + 2))%nat.
    replace (k + 2)%nat with (k + 2)%nat by reflexivity.
    rewrite Htake. reflexivity.
Qed.

(** X5: the keys that [getVariableStrings] reports are distinct, and each
    of them is what is left of a placeholder that occurs in the text, of
    the form [{{body}}] with a body that is not empty and lies on one
    line, once the marks have been stripped. *)
Theorem getVariableStrings_sound (text : string) :
  List.NoDup (getVariableStrings text) /\
  forall key,
    In key (getVariableStrings text) ->
    exists body,
      body <> EmptyString /\ Str.singleLine body = true /\
      occursIn ("{{" +:+ body +:+ "}}") text = true /\
      key = stripHolder ("{{" +:+ body +:+ "}}").
Proof.
  unfold getVariableStrings. split; [apply dedupe_NoDup|].
  intros key Hin. apply dedupe_In in Hin as [Hin _].
  apply in_map_iff in Hin as (m & <- & Hm).
  pose proof (matchesGo_occurs _ _ _ _ Hm) as Hocc.
  apply matchesGo_elem in Hm as (t & n & Hmatch & ->).
  destruct (holderAny_sound t n Hmatch) as (body & Hne & Hline & Htake).
  exists body. rewrite Htake in *. repeat split; assumption.
Qed.

Lemma getVariableStrings_sound_witness :
  exists body,
    body <> EmptyString /\ Str.singleLine body = true /\
    occursIn ("{{" +:+ body +:+ "}}") "a {{$x.y}} b {{$x.y}}" = true /\
    "x.y" = stripHolder ("{{" +:+ body +:+ "}}").
Proof.
  apply (proj2 (getVariableStrings_sound "a {{$x.y}} b {{$x.y}}") "x.y").
  vm_compute. left. reflexivity.
Defined.

Lemma lazyClose_spans (key : string) :
  hasChar "}" key = false -> Str.singleLine key = true ->
  Re.lazyClose (key +:+ "}}") = Some (Str.len key).
Proof.
  induction key as [|c key IH]; intros Hbrace Hline; [reflexivity|].
  cbn [hasChar] in Hbrace. apply orb_false_elim in Hbrace as [Hc Hbrace].
  cbn [Str.singleLine] in Hline. apply andb_prop in Hline as [Hterm Hline].
  apply negb_true_iff in Hterm.
  rewrite app_cons. cbn [Re.lazyClose Str.startsWith].
  rewrite Ascii.eqb_sym, Hc, Hterm, (IH Hbrace Hline). reflexivity.
Qed.

(** X6: wrapping a key into a placeholder and reading the placeholders
    back gives the key, for a key without a closing brace that lies on one
    line. *)
Theorem getVariableStrings_of_placeholder (key : string) :
  hasChar "}" key = false -> Str.singleLine key = true ->
  getVariableStrings ("{{$" +:+ key +:+ "}}") = [key].
Proof.
  intros Hbrace Hline. unfold getVariableStrings, matchAll.
  change ("{{$" +:+ key +:+ "}}") with (String "{" (String "{" (String "$" (key +:+ "}}")))).
  set (tail := String "{" (String "$" (key +:+ "}}"))).
  assert (Hlen : Str.len tail = (4 + Str.len key)%nat).
  { unfold tail.
    change (Str.len (String "{" (String "$" (key +:+ "}}"))))
      with (S (S (Str.len (key +:+ "}}")))).
    rewrite len_app. change (Str.len "}}") with 2%nat. lia. }
  assert (Hm : holderAny (String "{" tail) = Some (S (Str.len tail))).
  { rewrite Hlen. unfold tail, holderAny, Re.holderBody.
    cbn [Str.startsWith Str.len String.length Str.drop]. cbn.
    rewrite (lazyClose_spans key Hbrace Hline).
    change (Str.isLineTerminator "$") with false.
    cbn. f_equal. unfold Str.len. lia. }
  cbn [matchesGo]. rewrite Hm.
  rewrite matchesGo_skips_all by lia.
  change (S (Str.len tail)) with (Str.len (String "{" tail)). rewrite take_all.
  cbn [map dedupe existsb]. f_equal.
  unfold tail, stripHolder.
  cbn [Str.stripPrefix Str.startsWith Str.len String.length Str.drop]. cbn.
  apply stripSuffix_app.
Qed.

Lemma getVariableStrings_of_placeholder_witness :
  getVariableStrings "{{$user.name}}" = ["user.name"].
Proof. exact (getVariableStrings_of_placeholder "user.name" eq_refl eq_refl). Defined.

Lemma take_pathRun (s : string) : allPathChars (Str.take (pathRun s) s) = true.
Proof.
  induction s as [|c s IH]; [reflexivity|].
  cbn [pathRun]. destruct (isPathChar c) eqn:Hc; [|reflexivity].
  cbn [Str.take allPathChars]. now rewrite Hc, IH.
Qed.

Lemma variableToken_sound (t : string) (n : nat) :
  variableToken t = Some n ->
  exists c rest,
    Str.take n t = String "$" (String c rest) /\
    isWord c = true /\ Js.isDigit c = false /\ allPathChars rest = true.
Proof.
  unfold variableToken. intros Hm.
  destruct t as [|d [|c rest]]; try discriminate.
  destruct (Ascii.eqb_spec d "$") as [-> | _]; [|discriminate].
  destruct (Js.isDigit c) eqn:Hdigit; [discriminate|].
  destruct (Ascii.eqb c ".") eqn:Hdot; [discriminate|].
  destruct (isPathChar c) eqn:Hpath; [|discriminate].
  cbn in Hm. injection Hm as <-.
  pose proof (take_pathRun (String c rest)) as Hrun.
  cbn [pathRun] in *. rewrite Hpath in *.
  exists c, (Str.take (pathRun rest) rest). cbn [Str.take allPathChars] in *.
  apply andb_prop in Hrun as [_ Hrest]. repeat split; try assumption.
  unfold isPathChar in Hpath. rewrite Hdot, orb_false_r in Hpath. exact Hpath.
Qed.

(** X7: the variables that [getVariableValues] reports are distinct and
    well formed: a dollar sign, then a letter or an underscore (never a
    digit or a dot), then word characters and dots only. *)
Theorem getVariableValues_well_formed (text : string) :
  List.NoDup (getVariableValues text) /\
  forall v,
    In v (getVariableValues text) ->
    exists c rest,
      v = String "$" (String c rest) /\
      isWord c = true /\ Js.isDigit c = false /\ allPathChars rest = true.
Proof.
  unfold getVariableValues. split; [apply dedupe_NoDup|].
  intros v Hin. apply dedupe_In in Hin as [Hin _].
  apply matchesGo_elem in Hin as (t & n & Hmatch & ->).
  now apply variableToken_sound.
Qed.

Lemma getVariableValues_well_formed_witness :
  exists c rest,
    "$x.y" = String "$" (String c rest) /\
    isWord c = true /\ Js.isDigit c = false /\ allPathChars rest = true.
Proof.
  apply (proj2 (getVariableValues_well_formed "{{$x.y + $1 + $x.y}}") "$x.y").
  vm_compute. left. reflexivity.
Defined.

(** *** Lookups that find no scope *)

Lemma find_empty_object (q : string) :
  plainPath q = true -> find q (VObj []) = VUndef.
Proof.
  unfold plainPath, find, Str.split. intros Hplain.
  destruct (Str.splitGo "." O EmptyString q) as [|k rest] eqn:Hsplit.
  - now apply SplitFacts.splitGo_not_nil in Hsplit.
  - cbn [hd] in Hplain. apply negb_true_iff in Hplain.
    cbn [fold_left Js.truthy]. unfold Js.getProp at 2.
    cbn [Js.ownProperty Js.lookupOwn]. rewrite Hplain.
    now apply FindFacts.descend_falsy.
Qed.

Lemma scopeDataOf_unresolved (name : string) (scopes : list Scope) :
  Forall (fun s => reference s <> name) scopes ->
  scopeDataOf name scopes = VObj [].
Proof.
  intros Hnone. unfold scopeDataOf. destruct scopes as [|s0 rest]; [reflexivity|].
  assert (Hfind : List.find (fun i => String.eqb (reference i) name) (s0 :: rest) = None).
  { induction Hnone as [|s l Hs _ IH]; [reflexivity|].
    cbn [List.find]. apply String.eqb_neq in Hs. now rewrite Hs. }
  now rewrite Hfind.
Qed.

(** X8: a lookup that names a scope which is not on the stack searches
    an empty object, whatever [originalData] holds: it does not fall back
    on [originalData], and it gives [undefined] for every path whose
    first segment is no property name of [Object.prototype]. *)
Theorem lookup_unresolved_scope (td : TemplateData) (name : string) :
  Forall (fun s => reference s <> name) (scopes td) ->
  (forall text,
      getData text td (Just name) = find (Str.stripPrefix "$" text) (VObj []) /\
      (plainPath (Str.stripPrefix "$" text) = true ->
       getData text td (Just name) = VUndef)) /\
  (forall re search scope key,
      Str.isEmpty scope = false ->
      Str.stripPrefix "$" scope = name ->
      getScopeData re search td (Just scope) key =
      (query ← re ("^\$" +:+ scope) search (keyOr key (Str.stripPrefix "$" search));
       Some (find query (VObj []))) /\
      (forall query,
          re ("^\$" +:+ scope) search (keyOr key (Str.stripPrefix "$" search)) = Some query ->
          plainPath query = true ->
          getScopeData re search td (Just scope) key = Some VUndef)).
Proof.
  intros Hnone. split.
  - intros text. unfold getData.
    rewrite (scopeDataOf_unresolved name _ Hnone).
    split; [reflexivity|apply find_empty_object].
  - intros re search scope key Hne Hname.
    assert (Hrun : getScopeData re search td (Just scope) key =
                   (query ← re ("^\$" +:+ scope) search
                              (keyOr key (Str.stripPrefix "$" search));
                    Some (find query (VObj [])))).
    { unfold getScopeData.
      rewrite Hne, andb_false_r, Hname. cbn [scopeText].
      now rewrite (scopeDataOf_unresolved name _ Hnone). }
    split; [exact Hrun|].
    intros query Hquery Hplain. rewrite Hrun, Hquery. cbn [mbind option_bind].
    now rewrite (find_empty_object query Hplain).
Qed.

Lemma lookup_unresolved_scope_witness :
  getData "$name" (mkTemplateData (VObj [("name", VStr "Ann")]) [mkScope "item" VNull])
          (Just "user") = VUndef /\
  getScopeData replaceDollarPrefix "$user.name"
    (mkTemplateData (VObj [("name", VStr "Ann")]) [mkScope "item" VNull])
    (Just "$user") JsUndefined = Some VUndef.
Proof.
  destruct (lookup_unresolved_scope
              (mkTemplateData (VObj [("name", VStr "Ann")]) [mkScope "item" VNull]) "user")
    as [Hdata Hscope].
  - constructor; [discriminate|constructor].
  - split.
    + exact (proj2 (Hdata "$name") eq_refl).
    + exact (proj2 (Hscope replaceDollarPrefix "$user.name" "$user" JsUndefined
                      eq_refl eq_refl)
               "$user.name" eq_refl eq_refl).
Defined.

Section Info.

Variable regExpReplace : forall (source subject replacement : string), option string.
Variable regExpReplaceAll : forall (source subject : string) (replacement : Value), option string.

(** X9: for a key without a dot [getStringInfo] reads the property of
    [originalData] directly (and throws when [originalData] is [null] or
    [undefined]); for a key [first.rest] it takes [first] as the name of a
    scope and looks the key up in that scope only: with no scope on the
    stack it searches an empty object whatever [originalData] holds, so
    that the data of the key is [undefined] when the first segment of the
    path searched is no property name of [Object.prototype]. *)
Theorem infoOf_lookup (data : TemplateData) :
  (forall key,
      hasChar "." key = false ->
      infoOf regExpReplace data key =
      (v ← Js.getPropStrict (originalData data) (Str.stripPrefix "$" key); Some (key, v))) /\
  (forall first rest,
      hasChar "." first = false -> Str.isEmpty first = false ->
      let key := first +:+ "." +:+ rest in
      infoOf regExpReplace data key =
      (query ← regExpReplace ("^\$" +:+ first) key (Str.stripPrefix "$" key);
       Some (key, find query (scopeDataOf (Str.stripPrefix "$" first) (scopes data)))) /\
      (scopes data = [] ->
       infoOf regExpReplace data key =
       (query ← regExpReplace ("^\$" +:+ first) key (Str.stripPrefix "$" key);
        Some (key, find query (VObj []))) /\
       (forall query,
           regExpReplace ("^\$" +:+ first) key (Str.stripPrefix "$" key) = Some query ->
           plainPath query = true ->
           infoOf regExpReplace data key = Some (key, VUndef)))).
Proof.
  split.
  - intros key Hkey. unfold infoOf.
    rewrite SplitFacts.join_split by discriminate.
    unfold Str.split. rewrite (SplitFacts.splitGo_char_none _ _ _ Hkey).
    cbn [length Nat.ltb Nat.leb]. unfold getScopeData.
    unfold Str.split. rewrite (SplitFacts.splitGo_char_none _ _ _ Hkey).
    cbn [length Nat.eqb andb].
    destruct (Js.getPropStrict _ _); reflexivity.
  - intros first rest Hfirst Hne key.
    assert (Hsplit : Str.split "." key = first :: Str.split "." rest).
    { unfold key, Str.split. change (first +:+ "." +:+ rest) with (first +:+ String "." rest).
      rewrite SplitFacts.splitGo_char_app, (SplitFacts.splitGo_char_none _ _ _ Hfirst).
      reflexivity. }
    assert (Hlen : exists n, length (Str.split "." key) = S (S n)).
    { rewrite Hsplit. unfold Str.split.
      destruct (Str.splitGo "." O EmptyString rest) as [|r0 rs] eqn:Hr.
      - now apply SplitFacts.splitGo_not_nil in Hr.
      - now exists (length rs). }
    destruct Hlen as (n & Hlen).
    assert (Hinfo : infoOf regExpReplace data key =
                    (query ← regExpReplace ("^\$" +:+ first) key (Str.stripPrefix "$" key);
                     Some (key, find query (scopeDataOf (Str.stripPrefix "$" first) (scopes data))))).
    { unfold infoOf. rewrite SplitFacts.join_split by discriminate.
      rewrite Hlen. cbn [Nat.ltb Nat.leb]. rewrite Hsplit. cbn [hd].
      unfold getScopeData. rewrite Hlen. cbn [Nat.eqb andb]. rewrite Hne.
      cbn [scopeText keyOr].
      destruct (regExpReplace _ _ _); reflexivity. }
    split; [exact Hinfo|].
    intros Hempty. rewrite Hinfo, Hempty. cbn [scopeDataOf].
    split; [reflexivity|].
    intros query Hquery Hplain. rewrite Hquery. cbn [mbind option_bind].
    now rewrite (find_empty_object query Hplain).
Qed.

(** X10: a text in which no [{{] occurs comes out of [replaceVariables]
    as it is: nothing is looked up and the engine is not called. *)
Theorem replaceVariables_plain (text : string) (data : TemplateData) :
  occursIn "{{" text = false ->
  getStringInfo regExpReplace text data = Some [] /\
  replaceVariables regExpReplace regExpReplaceAll text data = Some text.
Proof.
  intros Hplain.
  assert (Hkeys : getVariableStrings text = []).
  { unfold getVariableStrings, matchAll.
    now rewrite (matchesGo_no_occurrence "{{" _ holderAny_needs_open text Hplain). }
  assert (Hinfo : getStringInfo regExpReplace text data = Some []).
  { unfold getStringInfo. now rewrite Hkeys. }
  split; [exact Hinfo|]. unfold replaceVariables. now rewrite Hinfo.
Qed.

End Info.

Lemma infoOf_lookup_witness :
  infoOf replaceDollarPrefix (mkTemplateData (VObj [("user", VObj [("name", VStr "Ann")])]) [])
         "user.name"
  = Some ("user.name", VUndef) /\
  infoOf replaceDollarPrefix (mkTemplateData (VObj [("title", VStr "Home")]) []) "title"
  = Some ("title", VStr "Home").
Proof.
  split.
  - exact (proj2 (proj2 (proj2 (infoOf_lookup replaceDollarPrefix
                                  (mkTemplateData (VObj [("user", VObj [("name", VStr "Ann")])]) []))
                               "user" "name" eq_refl eq_refl) eq_refl)
             "user.name" eq_refl eq_refl).
  - exact (proj1 (infoOf_lookup replaceDollarPrefix
                    (mkTemplateData (VObj [("title", VStr "Home")]) []))
                 "title" eq_refl).
Defined.

Lemma replaceVariables_plain_witness :
  replaceVariables replaceDollarPrefix (fun _ subject _ => Some subject)
    "<p>no placeholder here</p>" (mkTemplateData VNull [])
  = Some "<p>no placeholder here</p>".
Proof.
  exact (proj2 (replaceVariables_plain replaceDollarPrefix (fun _ subject _ => Some subject)
                  "<p>no placeholder here</p>" (mkTemplateData VNull []) eq_refl)).
Defined.

(** X11: [dropFirst] takes the braces and the first segment of a path
    away: from [{{head.rest}}] it gives [rest], and from [{{head}}], a
    path of one segment, the empty text. *)
Theorem dropFirst_path (head : string) :
  hasChar "." head = false ->
  (forall rest, dropFirst ("{{" +:+ head +:+ "." +:+ rest +:+ "}}") = rest) /\
  dropFirst ("{{" +:+ head +:+ "}}") = EmptyString.
Proof.
  intros Hhead. split.
  - intros rest. unfold dropFirst.
    change ("{{" +:+ head +:+ "." +:+ rest +:+ "}}")
      with ("{{" +:+ (head +:+ "." +:+ rest +:+ "}}")).
    assert (Hpre : Str.stripPrefix "{{" ("{{" +:+ (head +:+ "." +:+ rest +:+ "}}"))
                   = head +:+ "." +:+ rest +:+ "}}") by reflexivity.
    rewrite Hpre.
    replace (head +:+ "." +:+ rest +:+ "}}") with ((head +:+ "." +:+ rest) +:+ "}}")
      by (now rewrite !SplitFacts.app_assoc).
    rewrite stripSuffix_app. unfold Str.split.
    change (head +:+ "." +:+ rest) with (head +:+ String "." rest).
    rewrite SplitFacts.splitGo_char_app, (SplitFacts.splitGo_char_none _ _ _ Hhead).
    cbn [app tail]. fold (Str.split "." rest).
    apply SplitFacts.join_split. discriminate.
  - unfold dropFirst.
    assert (Hpre : Str.stripPrefix "{{" ("{{" +:+ head +:+ "}}") = head +:+ "}}") by reflexivity.
    rewrite Hpre, stripSuffix_app. unfold Str.split.
    now rewrite (SplitFacts.splitGo_char_none _ _ _ Hhead).
Qed.

Lemma dropFirst_path_witness :
  dropFirst "{{item.owner.name}}" = "owner.name" /\ dropFirst "{{item}}" = "".
Proof.
  destruct (dropFirst_path "item" eq_refl) as [Hrest Hone].
  split; [exact (Hrest "owner.name")|exact Hone].
Defined.

End VarsFacts.

(** ** More on the dispatcher *)

Module WalkFacts.
Import Dispatch Orphans StepFacts.

Lemma step_drained_identity (h : Handlers) (fuel : nat) (d : TemplateData) (nodes : list Node) :
  forallb drained nodes = true -> (Dom.sizeAll nodes < fuel)%nat ->
  step h fuel d nodes = Some (d, nodes).
Proof.
  revert d nodes. induction fuel as [|fuel IH]; intros d nodes Hd Hsize; [lia|].
  cbn [step]. apply (scan_keeps_drained h (step h fuel) fuel IH nodes d [] Hd). lia.
Qed.

(** X12: the walk is idempotent: a tree that came out of [step] goes
    through [step] again unchanged, whatever the handlers and the data. *)
Theorem step_idempotent (h : Handlers) (fuel : nat) (d d' : TemplateData)
    (nodes out : list Node) :
  step h fuel d nodes = Some (d', out) ->
  forall d2, step h (S (Dom.sizeAll out)) d2 out = Some (d2, out).
Proof.
  intros Hstep d2. apply step_drained_identity; [|lia].
  exact (step_leaves_drained h fuel d nodes d' out Hstep).
Qed.

Lemma step_idempotent_witness :
  step markers (S (Dom.sizeAll [Text "a"; Elem "p" [] [Text "b"]])) CaseFacts.noData
       [Text "a"; Elem "p" [] [Text "b"]]
  = Some (CaseFacts.noData, [Text "a"; Elem "p" [] [Text "b"]]).
Proof.
  apply (step_idempotent markers 6 CaseFacts.noData CaseFacts.noData
           [Text "a"; Elem "else" [] []; Elem "p" [] [Elem "elif" [] []; Text "b"]]
           [Text "a"; Elem "p" [] [Text "b"]]).
  reflexivity.
Defined.

(** *** Stray branches are pruned *)

Lemma drained_onlyStray (n : Node) : drained n = true -> onlyStray n = true.
Proof.
  induction n as [s|s|name attrs children IH] using Node_tree_ind; try reflexivity.
  cbn [drained onlyStray]. destruct (route (Str.toLowerCase name)); [discriminate|].
  intros Hd. induction IH as [|c children Hc _ IHl]; [reflexivity|].
  cbn [forallb] in *. apply andb_prop in Hd as [Hdc Hdl].
  now rewrite (Hc Hdc), (IHl Hdl).
Qed.

Lemma drained_all_onlyStray (l : list Node) :
  forallb drained l = true -> forallb onlyStray l = true.
Proof.
  induction l as [|n l IH]; [reflexivity|]. cbn [forallb]. intros Hd.
  apply andb_prop in Hd as [Hn Hl]. now rewrite (drained_onlyStray n Hn), (IH Hl).
Qed.

Lemma prune_drained (n : Node) : drained n = true -> prune n = [n].
Proof.
  induction n as [s|s|name attrs children IH] using Node_tree_ind; try reflexivity.
  cbn [drained prune]. destruct (route (Str.toLowerCase name)); [discriminate|].
  intros Hd. do 2 f_equal.
  induction IH as [|c children Hc _ IHl]; [reflexivity|].
  cbn [forallb flat_map] in *. apply andb_prop in Hd as [Hdc Hdl].
  now rewrite (Hc Hdc), (IHl Hdl).
Qed.

Lemma prune_all_drained (l : list Node) :
  forallb drained l = true -> flat_map prune l = l.
Proof.
  induction l as [|n l IH]; [reflexivity|]. cbn [forallb flat_map]. intros Hd.
  apply andb_prop in Hd as [Hn Hl]. now rewrite (prune_drained n Hn), (IH Hl).
Qed.

Lemma prune_gives_drained (n : Node) :
  onlyStray n = true -> forallb drained (prune n) = true.
Proof.
  induction n as [s|s|name attrs children IH] using Node_tree_ind; try reflexivity.
  cbn [onlyStray prune]. destruct (route (Str.toLowerCase name)) as [r|] eqn:Hroute.
  - destruct r; try discriminate. reflexivity.
  - intros Ho. cbn [forallb drained]. rewrite Hroute, andb_true_r.
    induction IH as [|c children Hc _ IHl]; [reflexivity|].
    cbn [forallb flat_map] in *. apply andb_prop in Ho as [Hoc Hol].
    rewrite forallb_app. now rewrite (Hc Hoc), (IHl Hol).
Qed.

Lemma prune_all_gives_drained (l : list Node) :
  forallb onlyStray l = true -> forallb drained (flat_map prune l) = true.
Proof.
  induction l as [|n l IH]; [reflexivity|]. cbn [forallb flat_map]. intros Ho.
  apply andb_prop in Ho as [Hn Hl].
  rewrite forallb_app. now rewrite (prune_gives_drained n Hn), (IH Hl).
Qed.

Lemma prune_size (n : Node) : (Dom.sizeAll (prune n) <= Dom.size n)%nat.
Proof.
  induction n as [s|s|name attrs children IH] using Node_tree_ind;
    try (cbn; lia).
  cbn [prune]. rewrite size_elem.
  assert (Hch : (Dom.sizeAll (flat_map prune children) <= Dom.sizeAll children)%nat).
  { induction IH as [|c children Hc _ IHl]; [cbn; lia|].
    cbn [flat_map]. rewrite sizeAll_app, sizeAll_cons. lia. }
  destruct (route (Str.toLowerCase name)) as [r|].
  - destruct r; try (rewrite sizeAll_cons, size_elem; cbn; lia). cbn. lia.
  - rewrite sizeAll_cons, size_elem. cbn. lia.
Qed.

Lemma prune_all_size (l : list Node) :
  (Dom.sizeAll (flat_map prune l) <= Dom.sizeAll l)%nat.
Proof.
  induction l as [|n l IH]; [cbn; lia|].
  cbn [flat_map]. rewrite sizeAll_app, sizeAll_cons.
  pose proof (prune_size n). lia.
Qed.

Definition prunesBelow (bound : nat) (stepf : Walker) : Prop :=
  forall d nodes,
    forallb onlyStray nodes = true -> (Dom.sizeAll nodes < bound)%nat ->
    stepf d nodes = Some (d, flat_map prune nodes).

Lemma scan_prunes (h : Handlers) (stepf : Walker) (bound : nat) :
  prunesBelow bound stepf ->
  forall rest d before,
    forallb onlyStray rest = true ->
    forallb drained before = true ->
    (Dom.sizeAll before + Dom.sizeAll rest <= bound)%nat ->
    scan h stepf d before rest = Some (d, before ++ flat_map prune rest).
Proof.
  intros Hstepf rest. induction rest as [|child after IH];
    intros d before Hrest Hbefore Hsize.
  - cbn. now rewrite app_nil_r.
  - cbn [forallb] in Hrest. apply andb_prop in Hrest as [Hchild Hafter].
    rewrite sizeAll_cons in Hsize.
    assert (Hpass : forall child1,
               prune child = [child1] -> drained child1 = true ->
               (Dom.size child1 <= Dom.size child)%nat ->
               scan h stepf d (before ++ [child1]) after
               = Some (d, before ++ flat_map prune (child :: after))).
    { intros child1 Hprune Hd Hle. rewrite IH.
      - cbn [flat_map]. rewrite Hprune. now rewrite <- app_assoc.
      - exact Hafter.
      - rewrite forallb_app, Hbefore. cbn. now rewrite Hd.
      - rewrite sizeAll_app, sizeAll_cons. cbn. lia. }
    destruct child as [s|s|name attrs children]; cbn [scan].
    + now apply Hpass.
    + now apply Hpass.
    + cbn [onlyStray] in Hchild.
      destruct (route (Str.toLowerCase name)) as [r|] eqn:Hroute.
      * destruct r; try discriminate. cbn [handlerOf remove mbind option_bind].
        rewrite Hstepf.
        -- rewrite flat_map_app, (prune_all_drained before Hbefore).
           cbn [flat_map prune]. now rewrite Hroute.
        -- rewrite forallb_app, (drained_all_onlyStray before Hbefore). exact Hafter.
        -- rewrite sizeAll_app. pose proof (size_pos (Elem name attrs children)). lia.
      * rewrite size_elem in Hsize.
        destruct children as [|c children'].
        -- apply Hpass; [cbn [prune]; now rewrite Hroute | cbn; now rewrite Hroute | lia].
        -- rewrite Hstepf by (assumption || lia). cbn [mbind option_bind].
           apply Hpass.
           ++ cbn [prune]. now rewrite Hroute.
           ++ cbn [drained]. rewrite Hroute. now apply prune_all_gives_drained.
           ++ rewrite !size_elem. pose proof (prune_all_size (c :: children')). lia.
Qed.

(** X13: on a tree whose only routed elements are stray [elif] and
    [else] elements, the walk returns, with the data as it was, the tree
    without these elements and what stands below them, at every depth;
    every other node stays, in order. *)
Theorem step_prunes_stray (h : Handlers) (fuel : nat) (d : TemplateData)
    (nodes : list Node) :
  forallb onlyStray nodes = true -> (Dom.sizeAll nodes < fuel)%nat ->
  step h fuel d nodes = Some (d, flat_map prune nodes).
Proof.
  revert d nodes. induction fuel as [|fuel IH]; intros d nodes Ho Hsize; [lia|].
  cbn [step].
  rewrite (scan_prunes h (step h fuel) fuel IH nodes d [] Ho eq_refl); [reflexivity|].
  cbn. lia.
Qed.

Lemma step_prunes_stray_witness :
  step markers 8 CaseFacts.noData
    [Text "a"; Elem "else" [] [Elem "if" [] []];
     Elem "div" [] [Elem "ELIF" [] []; Elem "when" [] [Text "w"]]]
  = Some (CaseFacts.noData, [Text "a"; Elem "div" [] [Elem "when" [] [Text "w"]]]).
Proof.
  apply (step_prunes_stray markers 8 CaseFacts.noData
           [Text "a"; Elem "else" [] [Elem "if" [] []];
            Elem "div" [] [Elem "ELIF" [] []; Elem "when" [] [Text "w"]]]).
  - reflexivity.
  - cbn. lia.
Defined.

End WalkFacts.

(** ** More on the resolver *)

Module ExtendFacts.
Import Resolver.

Lemma template_name_suffix (name : string) :
  Str.endsWith ".rtpl"
    (name +:+ (if negb (Str.endsWith ".rtpl" name) then ".rtpl" else "")) = true.
Proof.
  destruct (Str.endsWith ".rtpl" name) eqn:Hs; cbn [negb].
  - now rewrite HolderFacts.app_empty_r.
  - apply HolderFacts.endsWith_app.
Qed.

Section Outcomes.

Variable dirname : string -> string.
Variable resolve : string -> string -> string.
Variable parseFile : string -> Loaded.

Abbreviation extend' := (extend dirname resolve parseFile).

(** The file that [extend] asks the loader for. *)
Definition targetOf (tpl : Template) (inclFileName : string) : string :=
  resolve (dirname (file tpl))
    (inclFileName +:+ (if negb (Str.endsWith ".rtpl" inclFileName) then ".rtpl" else "")).

(** X14: a template is returned as it is, and nothing more happens, when
    its root has no [extends] child, and also when the first [extends]
    child of its root has no [file] attribute or an empty one. *)
Theorem extend_leaf (fuel : nat) (tpl : Template) :
  queryScopeChild "extends" (document tpl) = None \/
  (exists item,
      queryScopeChild "extends" (document tpl) = Some item /\
      Dom.getAttributeOr "file" "" item = "") ->
  extend' fuel tpl = (Some tpl, []).
Proof.
  intros [Hnone | (item & Hitem & Hfile)]; destruct fuel; cbn [extend].
  1,2: now rewrite Hnone.
  all: rewrite Hitem; unfold Dom.getAttributeOr in Hfile.
  all: destruct (Dom.getAttribute "file" item) as [name|]; [|reflexivity].
  all: destruct (Str.isEmpty name) eqn:He; [reflexivity|].
  all: destruct name; discriminate.
Qed.

(** X15: when [extend] follows the [extends] child, the loader is asked
    for a file whose name ends in [.rtpl], in the directory of the
    template; a rejection of the loader is a rejection of [extend], and a
    loader that gives no template leaves the template as the result. *)
Theorem extend_loader (fuel : nat) (tpl : Template) (item : Node) (name : string) :
  queryScopeChild "extends" (document tpl) = Some item ->
  Dom.getAttribute "file" item = Some name ->
  Str.isEmpty name = false ->
  (exists full, targetOf tpl name = resolve (dirname (file tpl)) full /\
                Str.endsWith ".rtpl" full = true) /\
  (parseFile (targetOf tpl name) = LoadFailure -> extend' fuel tpl = (None, [])) /\
  (parseFile (targetOf tpl name) = NoTemplate -> extend' fuel tpl = (Some tpl, [])).
Proof.
  intros Hitem Hfile Hname. split; [|split].
  - eexists. split; [reflexivity|apply template_name_suffix].
  - intros Hload. unfold targetOf in Hload.
    destruct fuel; cbn [extend]; now rewrite Hitem, Hfile, Hname, Hload.
  - intros Hload. unfold targetOf in Hload.
    destruct fuel; cbn [extend]; now rewrite Hitem, Hfile, Hname, Hload.
Qed.

(** X16: what [extend] returns is the template itself or its direct
    parent, loaded from a file whose name ends in [.rtpl], exactly as it
    was loaded and with the template as its [child].  The document of the
    template is never put into the parent: a parent comes back only when
    its root element is itself an [extends] element or when it holds no
    [extends] element at all, and no call on the parent is made. *)
Theorem extend_result (fuel : nat) (tpl top : Template) :
  (extend' fuel tpl).1 = Some top ->
  (extend' fuel tpl).2 = [] /\
  (top = tpl \/
   exists name parent,
     Str.endsWith ".rtpl" name = true /\
     parseFile (resolve (dirname (file tpl)) name) = Parsed parent /\
     top = mkTemplate (document parent) (file parent) (Some tpl) /\
     (Dom.hasTag "extends" (document parent) = true \/
      Dispatch.occurs "extends" (document parent) = false)).
Proof.
  intros Hrun.
  destruct (ResolverFacts.extend_returns_self_or_parent dirname resolve parseFile fuel tpl)
    as [Hdropped Hresult].
  split; [exact Hdropped|].
  destruct (Hresult top Hrun) as [-> | (item & name & parent & _ & _ & Hload & -> & Hsplice)];
    [now left|right].
  eexists _, parent. split; [apply template_name_suffix|].
  split; [exact Hload|]. split; [reflexivity|].
  rewrite ResolverFacts.spliceExtends_document in Hsplice.
  destruct (Dom.hasTag "extends" (document parent)); [now left|right].
  destruct (Dispatch.occurs "extends" (document parent)); [discriminate|reflexivity].
Qed.

End Outcomes.

Lemma extend_leaf_witness :
  extend ResolverFacts.flatDirname ResolverFacts.flatResolve ResolverFacts.files 3
         ResolverFacts.shell
  = (Some ResolverFacts.shell, []).
Proof.
  apply extend_leaf. right.
  exists (Elem "extends" [] []). split; reflexivity.
Defined.

Lemma extend_loader_witness :
  extend ResolverFacts.flatDirname ResolverFacts.flatResolve (fun _ => LoadFailure) 3
         ResolverFacts.page
  = (None, []).
Proof.
  exact (proj1 (proj2 (extend_loader ResolverFacts.flatDirname ResolverFacts.flatResolve
                         (fun _ => LoadFailure) 3 ResolverFacts.page
                         (Elem "extends" [("file", "layout")] []) "layout"
                         eq_refl eq_refl eq_refl)) eq_refl).
Defined.

(** A parent without a slot. *)
Definition plain : Template :=
  mkTemplate (Elem "root" [] [Elem "main" [] [Text "plain"]]) "plain.rtpl" None.

Lemma extend_result_witness :
  (extend ResolverFacts.flatDirname ResolverFacts.flatResolve (fun _ => Parsed plain) 3
          ResolverFacts.page).2 = [] /\
  (mkTemplate (document plain) (file plain) (Some ResolverFacts.page) = ResolverFacts.page \/
   exists name parent,
     Str.endsWith ".rtpl" name = true /\
     Parsed plain = Parsed parent /\
     mkTemplate (document plain) (file plain) (Some ResolverFacts.page)
     = mkTemplate (document parent) (file parent) (Some ResolverFacts.page) /\
     (Dom.hasTag "extends" (document parent) = true \/
      Dispatch.occurs "extends" (document parent) = false)).
Proof.
  apply (extend_result ResolverFacts.flatDirname ResolverFacts.flatResolve
           (fun _ => Parsed plain) 3 ResolverFacts.page).
  reflexivity.
Defined.

End ExtendFacts.

(** ** More on the [each] handler *)

Module EachMore.
Import Each Vars HolderFacts.

(** *** Substitution, piece by piece *)

Lemma replaceGo_skip_app (matchAt : string -> option nat) (cb : string -> string)
    (a s : string) (k : nat) :
  Re.replaceGo matchAt cb (Str.len a + k) (a +:+ s) = Re.replaceGo matchAt cb k s.
Proof.
  induction a as [|c a IH]; [reflexivity|].
  rewrite app_cons. cbn [Str.len String.length Nat.add Re.replaceGo]. exact IH.
Qed.

Lemma holderLazy_needs_open (t : string) :
  Str.startsWith "{{" t = false -> holderLazy t = None.
Proof. intros Ht. unfold holderLazy, Re.holderBody. now rewrite Ht. Qed.

Lemma replaceGo_literal (cb : string -> string) (lit rest : string) :
  hasChar "{" lit = false ->
  Re.replaceGo holderLazy cb O (lit +:+ rest) = lit +:+ Re.replaceGo holderLazy cb O rest.
Proof.
  induction lit as [|c lit IH]; intros Hlit; [reflexivity|].
  cbn [hasChar] in Hlit. apply orb_false_elim in Hlit as [Hc Hlit].
  rewrite !app_cons. cbn [Re.replaceGo].
  rewrite holderLazy_needs_open.
  - now rewrite (IH Hlit).
  - cbn [Str.startsWith]. now rewrite Ascii.eqb_sym, Hc.
Qed.

Lemma lazyClose_spans_rest (key rest : string) :
  hasChar "}" key = false -> Str.singleLine key = true ->
  Re.lazyClose (key +:+ "}}" +:+ rest) = Some (Str.len key).
Proof.
  induction key as [|c key IH]; intros Hbrace Hline; [reflexivity|].
  cbn [hasChar] in Hbrace. apply orb_false_elim in Hbrace as [Hc Hbrace].
  cbn [Str.singleLine] in Hline. apply andb_prop in Hline as [Hterm Hline].
  apply negb_true_iff in Hterm.
  rewrite app_cons. cbn [Re.lazyClose Str.startsWith].
  rewrite Ascii.eqb_sym, Hc, Hterm, (IH Hbrace Hline). reflexivity.
Qed.

Lemma holderLazy_placeholder (c : ascii) (key rest : string) :
  hasChar "}" (String c key) = false -> Str.singleLine (String c key) = true ->
  holderLazy ("{{" +:+ String c key +:+ "}}" +:+ rest) = Some (Str.len (String c key) + 4)%nat.
Proof.
  intros Hbrace Hline.
  cbn [hasChar] in Hbrace. apply orb_false_elim in Hbrace as [_ Hbrace].
  cbn [Str.singleLine] in Hline. apply andb_prop in Hline as [Hterm Hline].
  apply negb_true_iff in Hterm.
  unfold holderLazy, Re.holderBody.
  change ("{{" +:+ String c key +:+ "}}" +:+ rest)
    with (String "{" (String "{" (String c (key +:+ "}}" +:+ rest)))).
  cbn [Str.startsWith Str.len String.length Str.drop].
  change (Ascii.eqb "{" "{") with true. cbn iota.
  rewrite Hterm, (lazyClose_spans_rest key rest Hbrace Hline).
  cbn. f_equal. unfold Str.len. lia.
Qed.

Lemma inner_placeholder (expr : string) : inner ("{{" +:+ expr +:+ "}}") = expr.
Proof.
  unfold inner.
  change (Str.drop 2 ("{{" +:+ expr +:+ "}}")) with (expr +:+ "}}").
  change (Str.len ("{{" +:+ expr +:+ "}}")) with (S (S (Str.len (expr +:+ "}}")))).
  rewrite len_app. change (Str.len "}}") with 2%nat.
  replace (S (S (Str.len expr + 2)) - 4)%nat with (Str.len expr) by lia.
  apply take_app.
Qed.

Section Substitution.

Variable runInContext : string -> Context -> option Value.

Abbreviation substitute' := (substitute runInContext).

(** What a placeholder becomes: its own text when the evaluation throws,
    nothing when the value is [undefined], [null], [false], [0] or the
    empty text, and the value as a text otherwise. *)
Definition rendered (context : Context) (expr : string) : string :=
  match runInContext expr context with
  | None => "{{" +:+ expr +:+ "}}"
  | Some v => if Js.truthy v then Js.toString v else EmptyString
  end.


End Substitution.


(** *** Collections without entries and the [else] sibling *)

Lemma isEmptyData_forIn (data : Value) : isEmptyData data = true -> forIn data = [].
Proof.
  destruct data as [| |b|n|s|items|fields|]; cbn; try reflexivity; try discriminate.
  - destruct s; [reflexivity|discriminate].
  - destruct items; [reflexivity|discriminate].
Qed.

Section Passes.

Variable runInContext : string -> Context -> option Value.
Variable stepc : Context -> Node -> option (Context * Node).
Variable serialize : list Node -> string.
Variable parse : string -> list Node.

Abbreviation each' := (each runInContext stepc serialize parse).



Lemma eachChild_length (context context' : Context) (children frag : list Node) :
  eachChild runInContext stepc serialize parse context children = Some (context', frag) ->
  length frag = length children.
Proof.
  revert context context' frag. induction children as [|c rest IH];
    intros context context' frag Hrun; cbn [eachChild] in Hrun.
  - now injection Hrun as _ <-.
  - destruct (stepc context _) as [[c1 clone]|]; [|discriminate].
    cbn [mbind option_bind] in Hrun.
    destruct (eachChild _ _ _ _ c1 rest) as [[c2 frag']|] eqn:Hrest; [|discriminate].
    cbn in Hrun. injection Hrun as _ <-. cbn [length]. f_equal. exact (IH _ _ _ Hrest).
Qed.

Lemma eachEntry_length (key value : string) (children : list Node)
    (entries : list (string * Value)) (context context' : Context) (frag : list Node) :
  eachEntry runInContext stepc serialize parse key value children context entries
  = Some (context', frag) ->
  length frag = (length entries * length children)%nat.
Proof.
  revert context context' frag. induction entries as [|entry rest IH];
    intros context context' frag Hrun; cbn [eachEntry] in Hrun.
  - now injection Hrun as _ <-.
  - destruct (eachChild _ _ _ _ _ children) as [[c1 frag1]|] eqn:Hone; [|discriminate].
    cbn [mbind option_bind] in Hrun.
    destruct (eachEntry _ _ _ _ _ _ _ c1 rest) as [[c2 frag2]|] eqn:Hrest; [|discriminate].
    cbn in Hrun. injection Hrun as _ <-.
    rewrite length_app, (eachChild_length _ _ _ _ Hone), (IH _ _ _ Hrest).
    cbn [length]. lia.
Qed.

(** X20: a loop that returns has put, in the place of the element, one
    clone of every child of the element for every entry of the
    collection: the element is replaced by as many nodes as the
    collection has entries times the element has children. *)
Theorem each_output_length (context context' : Context) (before : list Node)
    (element : Node) (after out : list Node) (key value expr : string) :
  Str.isEmpty (Dom.getAttributeOr ":" "" element) = false ->
  parseQuery (Dom.getAttributeOr ":" "" element) = Some (key, value, expr) ->
  (isEmptyData (collection runInContext expr context) = true -> elseSibling after = None) ->
  each' context before element after = Some (context', out) ->
  exists frag,
    out = before ++ frag ++ withoutElse after /\
    length frag
    = (length (forIn (collection runInContext expr context))
       * length (Dom.childNodes element))%nat.
Proof.
  intros Hquery Hparse Helse Hrun. unfold each in Hrun. rewrite Hquery, Hparse in Hrun.
  assert (Hnone : (if isEmptyData (collection runInContext expr context)
                   then elseSibling after else None) = None).
  { destruct (isEmptyData _); [now apply Helse|reflexivity]. }
  rewrite Hnone in Hrun.
  destruct (eachEntry _ _ _ _ key value _ context _) as [[c frag]|] eqn:Hloop; [|discriminate].
  cbn in Hrun. injection Hrun as _ <-.
  exists frag. split; [reflexivity|]. exact (eachEntry_length _ _ _ _ _ _ _ Hloop).
Qed.

End Passes.

Definition emptyObjectLoop : Node := Elem "each" [(":", "v in box")] [Text "{{v}}"].



Lemma each_output_length_witness :
  exists frag,
    [Text "1;"; Text "2;"] = [] ++ frag ++ withoutElse [] /\
    length frag
    = (length (forIn (collection readName "items" EachFacts.twoItems))
       * length (Dom.childNodes EachFacts.loopOverItems))%nat.
Proof.
  apply (each_output_length readName idle textOf textNode EachFacts.twoItems
           (<["v" := VNum 2]> EachFacts.twoItems) [] EachFacts.loopOverItems []
           [Text "1;"; Text "2;"] "" "v" "items").
  - reflexivity.
  - reflexivity.
  - vm_compute. discriminate.
  - vm_compute. reflexivity.
Defined.

End EachMore.

(** ** More on the [case] handler *)

Module CaseMore.
Import Dispatch.

(** X21: the place of a branch decides, not its kind: a [default]
    element wins as soon as no branch before it, in document order,
    matches, whatever comes after it, a matching [when] included. *)
Theorem caseBlock_default_by_position (stepf : Walker) (d : TemplateData)
    (before : list Node) (element : Node) (after : list Node)
    (pre : list Node) (dflt : Node) (post : list Node) :
  Dom.querySelectorAll ["when"; "default"] element = pre ++ dflt :: post ->
  Dom.hasTag "default" dflt = true ->
  Forall (fun n => branchMatches d (baselineOf d element) n = false) pre ->
  caseBlock stepf d before element after = spliceBranch stepf d before dflt after.
Proof.
  intros Hnodes Hdflt Hpre. rewrite CaseFacts.caseBlock_find, Hnodes.
  rewrite (CaseFacts.find_first _ pre dflt post Hpre); [reflexivity|].
  unfold branchMatches. now rewrite Hdflt.
Qed.

Definition defaultFirst : Node :=
  Elem "case" [(":", "2")]
    [Elem "when" [(":", "1")] [Text "one"];
     Elem "default" [] [Text "other"];
     Elem "when" [(":", "2")] [Text "two"]].

Lemma caseBlock_default_by_position_witness :
  caseBlock CaseFacts.idleWalker CaseFacts.noData [] defaultFirst []
  = Some (CaseFacts.noData, [Text "other"]).
Proof.
  apply (caseBlock_default_by_position CaseFacts.idleWalker CaseFacts.noData []
           defaultFirst []
           [Elem "when" [(":", "1")] [Text "one"]]
           (Elem "default" [] [Text "other"])
           [Elem "when" [(":", "2")] [Text "two"]]).
  - reflexivity.
  - reflexivity.
  - constructor; [reflexivity|constructor].
Defined.

(** X22: the handler takes the [case] element out of the tree and cannot
    make the tree larger: with a walk that returns no more nodes than it
    is given, the handler returns, and the siblings it leaves have fewer
    nodes than the siblings it found. *)
Theorem caseBlock_takes_case_out (stepf : Walker) (d : TemplateData)
    (before : list Node) (element : Node) (after : list Node) :
  (forall d0 nodes,
      exists d1 out,
        stepf d0 nodes = Some (d1, out) /\ (Dom.sizeAll out <= Dom.sizeAll nodes)%nat) ->
  exists d' out,
    caseBlock stepf d before element after = Some (d', out) /\
    (Dom.sizeAll out < Dom.sizeAll (before ++ element :: after))%nat.
Proof.
  intros Hstepf.
  apply (StepFacts.caseBlock_shrinks stepf (Dom.sizeAll (before ++ element :: after))).
  - intros d0 nodes _. apply Hstepf.
  - lia.
Qed.

Lemma caseBlock_takes_case_out_witness :
  exists d' out,
    caseBlock CaseFacts.idleWalker CaseFacts.noData [Text "<"] CaseFacts.caseOnTwo [Text ">"]
    = Some (d', out) /\
    (Dom.sizeAll out
     < Dom.sizeAll ([Text "<"] ++ CaseFacts.caseOnTwo :: [Text ">"]))%nat.
Proof.
  apply caseBlock_takes_case_out.
  intros d0 nodes. exists d0, nodes. split; [reflexivity|lia].
Defined.

End CaseMore.

(** ** The control attribute of [each] *)

Module QueryFacts.
Import Each Vars HolderFacts.

Lemma noSpace_splitGo (a s cur : string) :
  noSpace a = true ->
  Str.splitGo " in " O cur (a +:+ s) = Str.splitGo " in " O (cur +:+ a) s.
Proof.
  revert cur. induction a as [|c a IH]; intros cur Ha.
  - now rewrite app_empty_r.
  - cbn [noSpace] in Ha. apply andb_prop in Ha as [Hc Ha].
    rewrite app_cons. cbn [Str.splitGo].
    assert (Hstart : Str.startsWith " in " (String c (a +:+ s)) = false).
    { cbn [Str.startsWith]. destruct (Ascii.eqb_spec " " c) as [<- | _]; [|reflexivity].
      discriminate. }
    rewrite Hstart, (IH _ Ha). now rewrite SplitFacts.app_assoc.
Qed.

Lemma split_in (a rest : string) :
  noSpace a = true ->
  Str.split " in " (a +:+ " in " +:+ rest) = a :: Str.split " in " rest.
Proof.
  intros Ha. unfold Str.split. rewrite (noSpace_splitGo a _ EmptyString Ha).
  reflexivity.
Qed.

Lemma split_in_last (a : string) :
  noSpace a = true -> Str.split " in " a = [a].
Proof.
  intros Ha. unfold Str.split.
  rewrite <- (app_empty_r a) at 1. rewrite (noSpace_splitGo a _ EmptyString Ha).
  reflexivity.
Qed.

Lemma trimEnd_noSpace (a : string) : noSpace a = true -> Str.trimEnd a = a.
Proof.
  induction a as [|c a IH]; intros Ha; [reflexivity|].
  cbn [noSpace] in Ha. apply andb_prop in Ha as [Hc Ha].
  apply negb_true_iff in Hc.
  cbn [Str.trimEnd]. rewrite (IH Ha). destruct a; [now rewrite Hc|reflexivity].
Qed.

Lemma trim_noSpace (a : string) : noSpace a = true -> Str.trim a = a.
Proof.
  intros Ha. unfold Str.trim.
  assert (Hstart : Str.trimStart a = a).
  { destruct a as [|c a]; [reflexivity|].
    cbn [noSpace] in Ha. apply andb_prop in Ha as [Hc _].
    apply negb_true_iff in Hc. cbn [Str.trimStart]. now rewrite Hc. }
  rewrite Hstart. now apply trimEnd_noSpace.
Qed.

(** X23: the control attribute [value in expr], with a name and an
    expression that hold no white space, binds [value] to the entries of
    [expr] and binds no key; a second [ in ] ends the expression, and what
    follows it is ignored. *)
Theorem parseQuery_value_in (value expr : string) :
  noSpace value = true -> noSpace expr = true ->
  Str.isEmpty value = false -> Str.isEmpty expr = false ->
  Str.startsWith "[" value = false ->
  parseQuery (value +:+ " in " +:+ expr) = Some ("", value, expr) /\
  (forall ignored,
      parseQuery (value +:+ " in " +:+ expr +:+ " in " +:+ ignored) = Some ("", value, expr)).
Proof.
  intros Hvalue Hexpr Hv He Hbracket.
  assert (Hparse : forall pieces,
             match value :: expr :: pieces with
             | placeholderKeys :: placeholderData :: _ =>
                 if Str.isEmpty placeholderKeys || Str.isEmpty placeholderData then None
                 else
                   let placeholderKeys := Str.trim placeholderKeys in
                   if Str.startsWith "[" placeholderKeys && Str.endsWith "]" placeholderKeys
                   then
                     match map Str.trim
                             (Str.split ","
                                (Str.stripSuffix "]" (Str.stripPrefix "[" placeholderKeys)))
                     with
                     | key :: value :: _ => Some (key, value, placeholderData)
                     | [key] => Some (key, "undefined", placeholderData)
                     | [] => Some ("undefined", "undefined", placeholderData)
                     end
                   else Some ("", placeholderKeys, placeholderData)
             | _ => None
             end = Some ("", value, expr)).
  { intros pieces. rewrite Hv, He. cbn [orb]. cbv zeta.
    rewrite (trim_noSpace value Hvalue), Hbracket. reflexivity. }
  split.
  - unfold parseQuery. rewrite (split_in value expr Hvalue), (split_in_last expr Hexpr).
    apply (Hparse []).
  - intros ignored. unfold parseQuery.
    rewrite (split_in value _ Hvalue), (split_in expr ignored Hexpr).
    apply (Hparse (Str.split " in " ignored)).
Qed.

Lemma parseQuery_value_in_witness :
  parseQuery "item in user.list" = Some ("", "item", "user.list") /\
  parseQuery "item in list in other" = Some ("", "item", "list").
Proof.
  split.
  - exact (proj1 (parseQuery_value_in "item" "user.list" eq_refl eq_refl eq_refl eq_refl eq_refl)).
  - exact (proj2 (parseQuery_value_in "item" "list" eq_refl eq_refl eq_refl eq_refl eq_refl)
                 "other").
Defined.

(** *** The form with a key *)

Lemma noSpace_app (a b : string) :
  noSpace a = true -> noSpace b = true -> noSpace (a +:+ b) = true.
Proof.
  intros Ha Hb. induction a as [|c a IH]; [exact Hb|].
  cbn [noSpace] in Ha. apply andb_prop in Ha as [Hc Ha].
  rewrite app_cons. cbn [noSpace]. now rewrite Hc, (IH Ha).
Qed.

Lemma no_in_after_name (v rest : string) :
  noSpace v = true -> Str.startsWith "in " (v +:+ "]" +:+ rest) = false.
Proof.
  intros Hv. destruct v as [|c1 [|c2 [|c3 v]]].
  - reflexivity.
  - cbn [Str.startsWith String.append]. change (String c1 "" +:+ "]" +:+ rest)
      with (String c1 (String "]" rest)).
    cbn [Str.startsWith]. destruct (Ascii.eqb "i" c1); reflexivity.
  - change (String c1 (String c2 "") +:+ "]" +:+ rest)
      with (String c1 (String c2 (String "]" rest))).
    cbn [Str.startsWith]. destruct (Ascii.eqb "i" c1), (Ascii.eqb "n" c2); reflexivity.
  - change (String c1 (String c2 (String c3 v)) +:+ "]" +:+ rest)
      with (String c1 (String c2 (String c3 (v +:+ "]" +:+ rest)))).
    cbn [Str.startsWith].
    cbn [noSpace] in Hv. apply andb_prop in Hv as [_ Hv]. apply andb_prop in Hv as [_ Hv].
    apply andb_prop in Hv as [H3 _].
    destruct (Ascii.eqb "i" c1), (Ascii.eqb "n" c2); try reflexivity.
    destruct (Ascii.eqb_spec " " c3) as [<- | _]; [discriminate|reflexivity].
Qed.

Lemma splitGo_at_in (cur rest : string) :
  Str.splitGo " in " O cur (" in " +:+ rest) = cur :: Str.split " in " rest.
Proof. reflexivity. Qed.

Lemma trimEnd_last (a : string) (c : ascii) :
  Str.isSpace c = false -> Str.trimEnd (a +:+ String c "") = a +:+ String c "".
Proof.
  intros Hc. induction a as [|x a IH].
  - change ("" +:+ String c "") with (String c ""). cbn [Str.trimEnd]. now rewrite Hc.
  - rewrite app_cons. cbn [Str.trimEnd]. rewrite IH.
    destruct (a +:+ String c "") eqn:E; [|reflexivity].
    destruct a; discriminate.
Qed.

Lemma hasChar_app (d : ascii) (a b : string) :
  hasChar d a = false -> hasChar d b = false -> hasChar d (a +:+ b) = false.
Proof.
  intros Ha Hb. induction a as [|c a IH]; [exact Hb|].
  cbn [hasChar] in Ha. apply orb_false_elim in Ha as [Hc Ha].
  rewrite app_cons. cbn [hasChar]. now rewrite Hc, (IH Ha).
Qed.

(** X24: the control attribute [[key, value] in expr], with or without
    the space after the comma, binds both names: [key] to the key of an
    entry and [value] to its value, for names without white space or
    comma and an expression without white space. *)
Theorem parseQuery_key_value_in (key value expr sp : string) :
  sp = "" \/ sp = " " ->
  noSpace key = true -> noSpace value = true -> noSpace expr = true ->
  hasChar "," key = false -> hasChar "," value = false ->
  Str.isEmpty expr = false ->
  parseQuery ("[" +:+ key +:+ "," +:+ sp +:+ value +:+ "]" +:+ " in " +:+ expr)
  = Some (key, value, expr).
Proof.
  intros Hsp Hkey Hvalue Hexpr Hck Hcv He.
  set (keys := "[" +:+ key +:+ "," +:+ sp +:+ value +:+ "]").
  assert (Hsplit : Str.split " in " (keys +:+ " in " +:+ expr) = [keys; expr]).
  { destruct Hsp as [-> | ->].
    - assert (Hns : noSpace keys = true).
      { unfold keys. change ("" +:+ value +:+ "]") with (value +:+ "]").
        apply (noSpace_app "["); [reflexivity|].
        apply noSpace_app; [exact Hkey|]. apply (noSpace_app ","); [reflexivity|].
        apply noSpace_app; [exact Hvalue|reflexivity]. }
      rewrite (split_in keys expr Hns). now rewrite (split_in_last expr Hexpr).
    - unfold Str.split, keys.
      replace (("[" +:+ key +:+ "," +:+ " " +:+ value +:+ "]") +:+ " in " +:+ expr)
        with (("[" +:+ key +:+ ",") +:+ String " " ((value +:+ "]") +:+ " in " +:+ expr)).
      2:{ rewrite !SplitFacts.app_assoc. reflexivity. }
      rewrite noSpace_splitGo.
      2:{ apply (noSpace_app "["); [reflexivity|]. apply noSpace_app; [exact Hkey|reflexivity]. }
      cbn [Str.splitGo].
      assert (Hstart : Str.startsWith " in " (String " " ((value +:+ "]") +:+ " in " +:+ expr))
                       = false).
      { cbn [Str.startsWith]. change (Ascii.eqb " " " ") with true. cbv iota.
        rewrite SplitFacts.app_assoc. now apply no_in_after_name. }
      rewrite Hstart. rewrite noSpace_splitGo.
      2:{ apply noSpace_app; [exact Hvalue|reflexivity]. }
      rewrite splitGo_at_in, (split_in_last expr Hexpr).
      rewrite !SplitFacts.app_assoc. reflexivity. }
  assert (Hnonempty : Str.isEmpty keys = false) by reflexivity.
  assert (Htrim : Str.trim keys = keys).
  { unfold Str.trim. change (Str.trimStart keys) with keys.
    unfold keys.
    replace ("[" +:+ key +:+ "," +:+ sp +:+ value +:+ "]")
      with (("[" +:+ key +:+ "," +:+ sp +:+ value) +:+ String "]" "")
      by (now rewrite !SplitFacts.app_assoc).
    now apply trimEnd_last. }
  assert (Hinside : Str.stripSuffix "]" (Str.stripPrefix "[" keys)
                    = key +:+ "," +:+ sp +:+ value).
  { change (Str.stripPrefix "[" keys) with (key +:+ "," +:+ sp +:+ value +:+ "]").
    replace (key +:+ "," +:+ sp +:+ value +:+ "]")
      with ((key +:+ "," +:+ sp +:+ value) +:+ "]")
      by (now rewrite !SplitFacts.app_assoc).
    apply stripSuffix_app. }
  assert (Hends : Str.endsWith "]" keys = true).
  { unfold keys.
    replace ("[" +:+ key +:+ "," +:+ sp +:+ value +:+ "]")
      with (("[" +:+ key +:+ "," +:+ sp +:+ value) +:+ "]")
      by (now rewrite !SplitFacts.app_assoc).
    apply endsWith_app. }
  assert (Hnames : map Str.trim (Str.split "," (key +:+ "," +:+ sp +:+ value)) = [key; value]).
  { unfold Str.split. change (key +:+ "," +:+ sp +:+ value) with (key +:+ String "," (sp +:+ value)).
    rewrite SplitFacts.splitGo_char_app, (SplitFacts.splitGo_char_none _ _ _ Hck).
    rewrite (SplitFacts.splitGo_char_none "," (sp +:+ value)).
    2:{ destruct Hsp as [-> | ->]; [exact Hcv|]. apply (hasChar_app "," " "); [reflexivity|exact Hcv]. }
    change (EmptyString +:+ key) with key.
    change (EmptyString +:+ (sp +:+ value)) with (sp +:+ value).
    cbn [app map]. rewrite (trim_noSpace key Hkey). do 2 f_equal.
    destruct Hsp as [-> | ->].
    - exact (trim_noSpace value Hvalue).
    - transitivity (Str.trim value); [reflexivity|]. exact (trim_noSpace value Hvalue). }
  replace ("[" +:+ key +:+ "," +:+ sp +:+ value +:+ "]" +:+ " in " +:+ expr)
    with (keys +:+ " in " +:+ expr)
    by (unfold keys; now rewrite !SplitFacts.app_assoc).
  unfold parseQuery. rewrite Hsplit, Hnonempty, He. cbn [orb]. cbv zeta.
  rewrite Htrim, Hends, Hinside, Hnames.
  change (Str.startsWith "[" keys) with true. reflexivity.
Qed.

Lemma parseQuery_key_value_in_witness :
  parseQuery "[key, value] in items" = Some ("key", "value", "items").
Proof.
  exact (parseQuery_key_value_in "key" "value" "items" " " (or_intror eq_refl)
           eq_refl eq_refl eq_refl eq_refl eq_refl eq_refl).
Defined.

End QueryFacts.
